(** * Travel diary: the entry store and the interaction overlays

    A shallow embedding of the storage-facing code of the two screens of
    the application:

    - [HomeScreen]: [loadEntries], [loadActionStates], [removeEntry] and
      [toggleAction] (src/screens/HomeScreen.tsx, first component);
    - [AddEntryScreen]: [saveEntry] (same file, second component).

    The handlers are asynchronous functions whose bodies sit in
    [try]/[catch]/[finally] blocks.  They are embedded in a state and
    exception monad [Async] over the component state (the [useState]
    cells) and the platform (AsyncStorage, alerts, the console, the
    notification scheduler and the navigator).

    Modelling conventions.
    - A JavaScript value that comes out of [JSON.parse] is a [JValue];
      [undefined] is [None] in [option JValue].  Numbers are integral.
    - Strings are sequences of code units below 256.
    - A property table is an association list in property order; its keys
      are meant to be distinct.  A read by a fixed name ([entry.id],
      [coords.latitude]) is an own-property read, none of those names
      being a member of a built-in prototype; the read by a computed key
      of [toggleAction] also finds the members inherited from the
      prototype chain ([truthy_member]).
    - [JSON.parse] and [JSON.stringify] belong to the runtime; they are the
      two operations of the class [JSON], and the handlers are stated for
      any instance.  [Codec] implements them for the fragment of JSON the
      model covers, and [parse_stringify] shows that it reads back what it
      writes.
    - A call into AsyncStorage or the notification scheduler may reject.
      The platform carries a schedule of rejections, [faults], read one
      flag per call; the empty schedule means that no call rejects. *)

From Stdlib Require Import ZArith Ascii String.
From stdpp Require Import gmap strings list pretty.

Local Open Scope string_scope.

(** ** JavaScript values *)

#[warnings="-register-all"]
Inductive JValue : Type :=
  | JNull
  | JBool (b : bool)
  | JNumber (n : Z)
  | JString (s : string)
  | JArray (items : list JValue)
  | JObject (props : list (string * JValue)).

(** The errors a handler can see in a [catch] clause. *)
Inductive Exn : Type :=
  | TypeError
  | SyntaxError
  | Rejected.

(** Pure computations that may throw. *)
Definition Result (A : Type) : Type := Exn + A.

#[global] Instance Result_ret : MRet (sum Exn) := λ A x, inr x.
#[global] Instance Result_bind : MBind (sum Exn) := λ A B f r,
  match r with
  | inl e => inl e
  | inr x => f x
  end.

(** [ToBoolean]; [None] is [undefined]. *)
Definition truthy (v : option JValue) : bool :=
  match v with
  | None => false
  | Some JNull => false
  | Some (JBool b) => b
  | Some (JNumber n) => negb (n =? 0)%Z
  | Some (JString s) => negb (String.eqb s "")
  | Some (JArray _) => true
  | Some (JObject _) => true
  end.

(** A string (or [null]) used as a condition: [if (text) ...]. *)
Definition truthy_text (text : option string) : option string :=
  match text with
  | Some s => if String.eqb s "" then None else Some s
  | None => None
  end.

Fixpoint digits_value (s : string) (acc : N) : option N :=
  match s with
  | "" => Some acc
  | String c s' =>
      match Ascii.is_nat c with
      | Some d => digits_value s' (10 * acc + N.of_nat d)%N
      | None => None
      end
  end.

(** A property key is an array index when it is the canonical decimal
    form of an integer below 2^32 - 1. *)
Definition array_index (k : string) : option nat :=
  match k with
  | "" => None
  | _ =>
      match digits_value k 0 with
      | Some n =>
          if decide (pretty n = k ∧ (n < 4294967295)%N)
          then Some (N.to_nat n) else None
      | None => None
      end
  end.

Fixpoint assoc (k : string) (props : list (string * JValue)) : option JValue :=
  match props with
  | [] => None
  | (k', v) :: props' => if decide (k' = k) then Some v else assoc k props'
  end.

Definition own_property (v : JValue) (k : string) : option JValue :=
  match v with
  | JObject props => assoc k props
  | JArray items =>
      if decide (k = "length") then Some (JNumber (Z.of_nat (length items)))
      else i ← array_index k; items !! i
  | JString s =>
      if decide (k = "length") then Some (JNumber (Z.of_nat (String.length s)))
      else i ← array_index k; c ← String.get i s; Some (JString (String c ""))
  | _ => None
  end.

(** [v.k] for a name [k] that no built-in prototype defines (see
    [fixed_names]): the own property. Reading a property of [null]
    throws. *)
Definition member (v : JValue) (k : string) : Result (option JValue) :=
  match v with
  | JNull => inl TypeError
  | _ => inr (own_property v k)
  end.

(** The string-keyed members of the built-in prototypes, as standardised
    (ECMAScript 2023 with its Annex B). An instance reads them unless an
    own property of the same name shadows them; each of them is a
    function, or for [__proto__] the prototype object, hence truthy. *)
Definition Object_prototype : list string :=
  ["constructor"; "hasOwnProperty"; "isPrototypeOf"; "propertyIsEnumerable";
   "toLocaleString"; "toString"; "valueOf"; "__proto__"; "__defineGetter__";
   "__defineSetter__"; "__lookupGetter__"; "__lookupSetter__"].

Definition Array_prototype : list string :=
  ["at"; "concat"; "constructor"; "copyWithin"; "entries"; "every"; "fill";
   "filter"; "find"; "findIndex"; "findLast"; "findLastIndex"; "flat";
   "flatMap"; "forEach"; "includes"; "indexOf"; "join"; "keys"; "lastIndexOf";
   "map"; "pop"; "push"; "reduce"; "reduceRight"; "reverse"; "shift"; "slice";
   "some"; "sort"; "splice"; "toLocaleString"; "toReversed"; "toSorted";
   "toSpliced"; "toString"; "unshift"; "values"; "with"].

Definition String_prototype : list string :=
  ["at"; "charAt"; "charCodeAt"; "codePointAt"; "concat"; "constructor";
   "endsWith"; "includes"; "indexOf"; "lastIndexOf"; "localeCompare"; "match";
   "matchAll"; "normalize"; "padEnd"; "padStart"; "repeat"; "replace";
   "replaceAll"; "search"; "slice"; "split"; "startsWith"; "substring";
   "toLocaleLowerCase"; "toLocaleUpperCase"; "toLowerCase"; "toString";
   "toUpperCase"; "trim"; "trimEnd"; "trimStart"; "valueOf"; "substr";
   "anchor"; "big"; "blink"; "bold"; "fixed"; "fontcolor"; "fontsize";
   "italics"; "link"; "small"; "strike"; "sub"; "sup"; "trimLeft";
   "trimRight"].

Definition Number_prototype : list string :=
  ["constructor"; "toExponential"; "toFixed"; "toLocaleString"; "toPrecision";
   "toString"; "valueOf"].

Definition Boolean_prototype : list string :=
  ["constructor"; "toString"; "valueOf"].

Definition named (k : string) (names : list string) : bool :=
  existsb (String.eqb k) names.

(** Whether [k] names a member on the prototype chain of [v]: the
    prototype of its kind, then [Object.prototype]. *)
Definition inherited (v : JValue) (k : string) : bool :=
  match v with
  | JNull => false
  | JBool _ => named k Boolean_prototype || named k Object_prototype
  | JNumber _ => named k Number_prototype || named k Object_prototype
  | JString _ => named k String_prototype || named k Object_prototype
  | JArray _ => named k Array_prototype || named k Object_prototype
  | JObject _ => named k Object_prototype
  end.

(** The truthiness of [v[k]] for a computed key [k]: an own property
    decides; without one, a member found on the prototype chain is
    truthy and a name found nowhere reads [undefined]. Reading a
    property of [null] throws. *)
Definition truthy_member (v : JValue) (k : string) : Result bool :=
  match v with
  | JNull => inl TypeError
  | _ =>
      inr (match own_property v k with
           | Some x => truthy (Some x)
           | None => inherited v k
           end)
  end.

(** The names the handlers read with [member]. *)
Definition fixed_names : list string :=
  ["id"; "title"; "description"; "image"; "coords"; "latitude"; "longitude"].

Fixpoint chars (s : string) : list JValue :=
  match s with
  | "" => []
  | String c s' => JString (String c "") :: chars s'
  end.

(** The own enumerable properties copied by [{...v}]. *)
Definition own_enumerable (v : JValue) : list (string * JValue) :=
  match v with
  | JObject props => props
  | JArray items => imap (λ i x, (pretty (N.of_nat i), x)) items
  | JString s => imap (λ i x, (pretty (N.of_nat i), x)) (chars s)
  | _ => []
  end.

Fixpoint obj_replace (k : string) (x : JValue) (props : list (string * JValue))
  : list (string * JValue) :=
  match props with
  | [] => []
  | (k', v) :: props' =>
      if decide (k' = k) then (k', x) :: props'
      else (k', v) :: obj_replace k x props'
  end.

Fixpoint obj_insert_index (n : nat) (k : string) (x : JValue)
    (props : list (string * JValue)) : list (string * JValue) :=
  match props with
  | [] => [(k, x)]
  | (k', v) :: props' =>
      match array_index k' with
      | Some m =>
          if decide (m < n)%nat then (k', v) :: obj_insert_index n k x props'
          else (k, x) :: props
      | None => (k, x) :: props
      end
  end.

(** Defining property [k] of an object: an existing key keeps its place, a
    new array index goes among the indices in ascending order, any other
    new key goes last. *)
Definition obj_set (k : string) (x : JValue) (props : list (string * JValue))
  : list (string * JValue) :=
  match assoc k props with
  | Some _ => obj_replace k x props
  | None =>
      match array_index k with
      | Some n => obj_insert_index n k x props
      | None => props ++ [(k, x)]
      end
  end.

(** The elements produced by [[...v]]: only arrays and strings iterate. *)
Definition spread_array (v : JValue) : Result (list JValue) :=
  match v with
  | JArray items => inr items
  | JString s => inr (chars s)
  | _ => inl TypeError
  end.

(** [xs.filter(cb)] where the callback may throw. *)
Fixpoint filter_items (cb : JValue → Result bool) (xs : list JValue)
  : Result (list JValue) :=
  match xs with
  | [] => inr []
  | x :: xs' =>
      keep ← cb x;
      rest ← filter_items cb xs';
      inr (if keep : bool then x :: rest else rest)
  end.

(** [v.filter(cb)]: only an array has the method. *)
Definition Array_filter (cb : JValue → Result bool) (v : JValue)
  : Result (list JValue) :=
  match v with
  | JArray items => filter_items cb items
  | _ => inl TypeError
  end.

(** Induction on values, through the lists of arrays and objects. *)
Section JValue_induction.
Variable P : JValue → Prop.
Hypothesis Pnull : P JNull.
Hypothesis Pbool : ∀ b, P (JBool b).
Hypothesis Pnumber : ∀ n, P (JNumber n).
Hypothesis Pstring : ∀ s, P (JString s).
Hypothesis Parray : ∀ items, Forall P items → P (JArray items).
Hypothesis Pobject : ∀ props, Forall (λ p, P (snd p)) props → P (JObject props).

Fixpoint JValue_nested_ind (v : JValue) : P v :=
  match v with
  | JNull => Pnull
  | JBool b => Pbool b
  | JNumber n => Pnumber n
  | JString s => Pstring s
  | JArray items =>
      Parray items
        ((fix go (l : list JValue) : Forall P l :=
            match l with
            | [] => List.Forall_nil P
            | x :: l' => List.Forall_cons P x l' (JValue_nested_ind x) (go l')
            end) items)
  | JObject props =>
      Pobject props
        ((fix go (l : list (string * JValue)) : Forall (λ p, P (snd p)) l :=
            match l with
            | [] => List.Forall_nil _
            | p :: l' =>
                List.Forall_cons (λ p, P (snd p)) p l' (JValue_nested_ind (snd p)) (go l')
            end) props)
  end.
End JValue_induction.

(** ** Strings *)

Definition is_white_space (c : ascii) : bool :=
  Ascii.is_space c || Ascii.eqb c "160"%char.

Fixpoint trimStart (s : string) : string :=
  match s with
  | "" => ""
  | String c s' => if is_white_space c then trimStart s' else s
  end.

Definition trimEnd (s : string) : string :=
  String.rev (trimStart (String.rev s)).

Definition trim (s : string) : string := trimEnd (trimStart s).

Definition dquote : string := String (Ascii.ascii_of_nat 34) "".

(** ** The runtime's JSON codec *)

Class JSON : Type := {
  JSON_parse : string → option JValue;
  JSON_stringify : JValue → string;
  JSON_parse_empty : JSON_parse "" = None
}.

(** ** The platform *)

Record Platform : Type := mkPlatform {
  storage : gmap string string;
  faults : list bool;
  alerts : list (string * string);
  console : list (string * Exn);
  notifications : list (string * string);
  navigation : list string
}.

Definition with_storage (m : gmap string string) (p : Platform) : Platform :=
  mkPlatform m (faults p) (alerts p) (console p) (notifications p) (navigation p).
Definition with_faults (fs : list bool) (p : Platform) : Platform :=
  mkPlatform (storage p) fs (alerts p) (console p) (notifications p) (navigation p).
Definition with_alerts (al : list (string * string)) (p : Platform) : Platform :=
  mkPlatform (storage p) (faults p) al (console p) (notifications p) (navigation p).
Definition with_console (c : list (string * Exn)) (p : Platform) : Platform :=
  mkPlatform (storage p) (faults p) (alerts p) c (notifications p) (navigation p).
Definition with_notifications (n : list (string * string)) (p : Platform) : Platform :=
  mkPlatform (storage p) (faults p) (alerts p) (console p) n (navigation p).
Definition with_navigation (n : list string) (p : Platform) : Platform :=
  mkPlatform (storage p) (faults p) (alerts p) (console p) (notifications p) n.

(** ** Asynchronous handlers *)

Definition Async (St A : Type) : Type :=
  St * Platform → Result A * (St * Platform).

#[global] Instance Async_ret {St} : MRet (Async St) := λ A x σ, (inr x, σ).
#[global] Instance Async_bind {St} : MBind (Async St) := λ A B f m σ,
  match m σ with
  | (inr x, σ') => f x σ'
  | (inl e, σ') => (inl e, σ')
  end.

Section Async.
Context {St : Type}.

Definition throw {A} (e : Exn) : Async St A := λ σ, (inl e, σ).

Definition liftR {A} (r : Result A) : Async St A := λ σ, (r, σ).

Definition try_catch {A} (body : Async St A) (handler : Exn → Async St A)
  : Async St A := λ σ,
  match body σ with
  | (inl e, σ') => handler e σ'
  | (inr x, σ') => (inr x, σ')
  end.

Definition try_finally {A} (body : Async St A) (final : Async St unit)
  : Async St A := λ σ,
  match body σ with
  | (r, σ') =>
      match final σ' with
      | (inl e, σ'') => (inl e, σ'')
      | (inr _, σ'') => (r, σ'')
      end
  end.

Definition getState : Async St St := λ σ, (inr (fst σ), σ).
Definition setState (f : St → St) : Async St unit :=
  λ σ, (inr (), (f (fst σ), snd σ)).
Definition platform (f : Platform → Platform) : Async St unit :=
  λ σ, (inr (), (fst σ, f (snd σ))).
Definition inspect {A} (f : Platform → A) : Async St A :=
  λ σ, (inr (f (snd σ)), σ).

(** One call into a fallible platform service. *)
Definition platform_call : Async St unit := λ σ,
  match faults (snd σ) with
  | [] => (inr (), σ)
  | false :: fs => (inr (), (fst σ, with_faults fs (snd σ)))
  | true :: fs => (inl Rejected, (fst σ, with_faults fs (snd σ)))
  end.

Definition AsyncStorage_getItem (key : string) : Async St (option string) :=
  _ ← platform_call;
  inspect (λ p, storage p !! key).

Definition AsyncStorage_setItem (key value : string) : Async St unit :=
  _ ← platform_call;
  platform (λ p, with_storage (<[key := value]> (storage p)) p).

Definition Alert_alert (heading message : string) : Async St unit :=
  platform (λ p, with_alerts (alerts p ++ [(heading, message)]) p).

Definition console_error (label : string) (error : Exn) : Async St unit :=
  platform (λ p, with_console (console p ++ [(label, error)]) p).

Definition Notifications_scheduleNotificationAsync (heading body : string)
  : Async St unit :=
  _ ← platform_call;
  platform (λ p, with_notifications (notifications p ++ [(heading, body)]) p).

(** Installing the notification handler has no effect on the store. *)
Definition Notifications_setNotificationHandler : Async St unit := mret ().

Definition navigation_navigate (screen : string) : Async St unit :=
  platform (λ p, with_navigation (navigation p ++ [screen]) p).

(** [Promise.all]: every promise of the list has been started; the
    result rejects with the first rejection. *)
Fixpoint Promise_all {A} (ps : list (Async St A)) : Async St (list A) :=
  match ps with
  | [] => mret []
  | p :: ps' => λ σ,
      match p σ with
      | (r, σ') =>
          match Promise_all ps' σ' with
          | (rs, σ'') =>
              (match r, rs with
               | inl e, _ => inl e
               | inr _, inl e => inl e
               | inr x, inr xs => inr (x :: xs)
               end, σ'')
          end
      end
  end.

Definition JSON_parse_or_throw `{JSON} (text : string) : Async St JValue :=
  match JSON_parse text with
  | Some v => mret v
  | None => throw SyntaxError
  end.
End Async.

(** ** Permissions, pickers and the location service *)

Section Services.
Context {St : Type}.

(** A call into a fallible platform service that answers [answer]. *)
Definition platform_answer {A} (answer : A) : Async St A :=
  _ ← platform_call;
  mret answer.

Definition ImagePicker_requestCameraPermissionsAsync (status : string)
  : Async St string := platform_answer status.
Definition Location_requestForegroundPermissionsAsync (status : string)
  : Async St string := platform_answer status.
Definition Notifications_getPermissionsAsync (status : string)
  : Async St string := platform_answer status.
Definition Notifications_requestPermissionsAsync (status : string)
  : Async St string := platform_answer status.
Definition Notifications_setNotificationChannelAsync : Async St unit :=
  platform_answer ().

(** The pickers answer with the uri of the first asset, or [None] when
    the user cancelled. *)
Definition ImagePicker_launchImageLibraryAsync (result : option string)
  : Async St (option string) := platform_answer result.
Definition ImagePicker_launchCameraAsync (result : option string)
  : Async St (option string) := platform_answer result.

Definition Location_getCurrentPositionAsync (position : JValue)
  : Async St JValue := platform_answer position.

(** [navigation.goBack()], written to the navigation log. *)
Definition navigation_goBack : Async St unit :=
  platform (λ p, with_navigation (navigation p ++ ["goBack"]) p).

(** A promise that is started and not awaited: a rejection stays with it. *)
Definition fire (m : Async St unit) : Async St unit :=
  λ σ, (inr (), snd (m σ)).
End Services.

(** [status !== 'granted'] *)
Definition not_granted (status : string) : bool :=
  negb (String.eqb status "granted").

(** [v.k] where [v] may be [undefined]. *)
Definition member_of (v : option JValue) (k : string) : Result (option JValue) :=
  match v with
  | None => inl TypeError
  | Some v' => member v' k
  end.

(** [parts.join(sep)] on strings. *)
Fixpoint Array_join (sep : string) (parts : list string) : string :=
  match parts with
  | [] => ""
  | [part] => part
  | part :: parts' => part +:+ sep +:+ Array_join sep parts'
  end.

(** [a && b]: the left operand when it is falsy, the right one otherwise. *)
Definition and_then (a b : Result (option JValue)) : Result (option JValue) :=
  x ← a; if truthy x then b else mret x.

(** [v === s] for a string [s]. *)
Definition strict_equals (v : option JValue) (s : string) : bool :=
  match v with
  | Some (JString s') => String.eqb s' s
  | _ => false
  end.

(** ** HomeScreen *)

Module HomeScreen.

Record State : Type := mkState {
  entries : list JValue;
  loading : bool;
  likedPosts : JValue;
  savedPosts : JValue;
  commentedPosts : JValue;
  sharedPosts : JValue
}.

(** The [useState] initial values. *)
Definition mount : State :=
  mkState [] true (JObject []) (JObject []) (JObject []) (JObject []).

Definition setEntries (v : list JValue) (s : State) : State :=
  mkState v (loading s) (likedPosts s) (savedPosts s) (commentedPosts s)
    (sharedPosts s).
Definition setLoading (b : bool) (s : State) : State :=
  mkState (entries s) b (likedPosts s) (savedPosts s) (commentedPosts s)
    (sharedPosts s).
Definition setLikedPosts (v : JValue) (s : State) : State :=
  mkState (entries s) (loading s) v (savedPosts s) (commentedPosts s)
    (sharedPosts s).
Definition setSavedPosts (v : JValue) (s : State) : State :=
  mkState (entries s) (loading s) (likedPosts s) v (commentedPosts s)
    (sharedPosts s).
Definition setCommentedPosts (v : JValue) (s : State) : State :=
  mkState (entries s) (loading s) (likedPosts s) (savedPosts s) v
    (sharedPosts s).
Definition setSharedPosts (v : JValue) (s : State) : State :=
  mkState (entries s) (loading s) (likedPosts s) (savedPosts s)
    (commentedPosts s) v.

(** The four kinds of [toggleAction]. *)
Inductive ActionType : Type := like | comment | share | save.

(** The answer to the confirmation dialog of [removeEntry]. *)
Inductive Button : Type := Cancel | Delete.

(** [entry.id && entry.title && entry.description && entry.image] *)
Definition valid_entry (entry : JValue) : Result bool :=
  v ← and_then (and_then (and_then (member entry "id") (member entry "title"))
                  (member entry "description")) (member entry "image");
  mret (truthy v).

(** [entry.id !== id] *)
Definition other_entry (id : string) (entry : JValue) : Result bool :=
  v ← member entry "id";
  mret (negb (strict_equals v id)).

(** [{ ...posts, [id]: !posts[id] }]: the spread copies the own
    properties, the read of [posts[id]] also sees inherited members. *)
Definition toggled (posts : JValue) (id : string) : Result JValue :=
  let copied := own_enumerable posts in
  flag ← truthy_member posts id;
  mret (JObject (obj_set id (JBool (negb flag)) copied)).

Section Handlers.
Context `{JSON}.

Definition loadEntries : Async State unit :=
  try_finally
    (try_catch
       (_ ← setState (setLoading true);
        entriesStr ← AsyncStorage_getItem "travelEntries";
        match truthy_text entriesStr with
        | Some text =>
            try_catch
              (parsedEntries ← JSON_parse_or_throw text;
               validEntries ← liftR (Array_filter valid_entry parsedEntries);
               setState (setEntries validEntries))
              (λ error,
                 _ ← console_error "Error parsing entries:" error;
                 setState (setEntries []))
        | None => setState (setEntries [])
        end)
       (λ error,
          _ ← console_error "Error loading entries:" error;
          Alert_alert "Error" "Failed to load entries"))
    (setState (setLoading false)).

(** [if (text) setPosts(JSON.parse(text))] *)
Definition restore (text : option string) (setPosts : JValue → State → State)
  : Async State unit :=
  match truthy_text text with
  | Some t => v ← JSON_parse_or_throw t; setState (setPosts v)
  | None => mret ()
  end.

Definition loadActionStates : Async State unit :=
  try_catch
    (texts ← Promise_all
               [AsyncStorage_getItem "likedPosts";
                AsyncStorage_getItem "commentedPosts";
                AsyncStorage_getItem "sharedPosts";
                AsyncStorage_getItem "savedPosts"];
     match texts with
     | [liked; commented; shared; saved] =>
         _ ← restore liked setLikedPosts;
         _ ← restore commented setCommentedPosts;
         _ ← restore shared setSharedPosts;
         restore saved setSavedPosts
     | _ => mret ()
     end)
    (λ error, console_error "Error loading action states:" error).

(** [removeEntry] opens a confirmation dialog; the deletion itself is
    the [onPress] handler of its Delete button. *)
Definition removeEntry (id : string) (pressed : Button) : Async State unit :=
  _ ← Alert_alert "Delete Entry" "Are you sure you want to delete this entry?";
  match pressed with
  | Cancel => mret ()
  | Delete =>
      try_catch
        (s ← getState;
         updatedEntries ← liftR (filter_items (other_entry id) (entries s));
         _ ← AsyncStorage_setItem "travelEntries"
               (JSON_stringify (JArray updatedEntries));
         setState (setEntries updatedEntries))
        (λ error,
           _ ← console_error "Error removing entry:" error;
           Alert_alert "Error" "Failed to remove entry")
  end.

Definition toggleAction (id : string) (type : ActionType) : Async State unit :=
  try_catch
    (s ← getState;
     '(newState, storageKey) ←
       match type with
       | like =>
           newState ← liftR (toggled (likedPosts s) id);
           _ ← setState (setLikedPosts newState);
           mret (newState, "likedPosts")
       | comment =>
           newState ← liftR (toggled (commentedPosts s) id);
           _ ← setState (setCommentedPosts newState);
           mret (newState, "commentedPosts")
       | share =>
           newState ← liftR (toggled (sharedPosts s) id);
           _ ← setState (setSharedPosts newState);
           mret (newState, "sharedPosts")
       | save =>
           newState ← liftR (toggled (savedPosts s) id);
           _ ← setState (setSavedPosts newState);
           mret (newState, "savedPosts")
       end;
     AsyncStorage_setItem storageKey (JSON_stringify newState))
    (λ error, console_error "Error toggling action:" error).
End Handlers.

Section Effects.
Context `{JSON}.

(** The effect run on mounting: both loads are started, neither is
    awaited. *)
Definition mountEffect : Async State unit :=
  _ ← fire loadEntries;
  fire loadActionStates.

(** The listener of the focus event. *)
Definition focusListener : Async State unit := fire loadEntries.
End Effects.

(** The overlay and the storage key of a kind. *)
Definition posts (type : ActionType) (s : State) : JValue :=
  match type with
  | like => likedPosts s
  | comment => commentedPosts s
  | share => sharedPosts s
  | save => savedPosts s
  end.

Definition storageKey (type : ActionType) : string :=
  match type with
  | like => "likedPosts"
  | comment => "commentedPosts"
  | share => "sharedPosts"
  | save => "savedPosts"
  end.

Definition setPosts (type : ActionType) (v : JValue) (s : State) : State :=
  match type with
  | like => setLikedPosts v s
  | comment => setCommentedPosts v s
  | share => setSharedPosts v s
  | save => setSavedPosts v s
  end.

(** The place of a kind in the order in which [loadActionStates]
    restores the overlays. *)
Definition rank (type : ActionType) : nat :=
  match type with
  | like => 0
  | comment => 1
  | share => 2
  | save => 3
  end.

End HomeScreen.

(** ** AddEntryScreen *)

Module AddEntryScreen.

Record State : Type := mkState {
  image : option string;
  location : JValue;
  address : string;
  title : string;
  description : string;
  isLoading : bool
}.

Definition setIsLoading (b : bool) (s : State) : State :=
  mkState (image s) (location s) (address s) (title s) (description s) b.

(** A [string | null] state cell as a value. *)
Definition text_value (text : option string) : JValue :=
  match text with
  | Some t => JString t
  | None => JNull
  end.

(** [!text] for a [string | null]. *)
Definition falsy (text : option string) : bool :=
  match truthy_text text with
  | Some _ => false
  | None => true
  end.

(** The object literal of [saveEntry]; [id] is [Date.now().toString()]
    and [date] is [new Date().toISOString()]. *)
Definition newEntry (now : Z) (date : string) (s : State) : JValue :=
  JObject [("id", JString (pretty now));
           ("title", JString (trim (title s)));
           ("description", JString (trim (description s)));
           ("image", text_value (image s));
           ("location", location s);
           ("address", JString (address s));
           ("date", JString date)].

Section Handlers.
Context `{JSON}.

(** [now] and [date] are the two readings of the clock. *)
Definition saveEntry (now : Z) (date : string) : Async State unit :=
  s ← getState;
  if falsy (image s) || falsy (Some (trim (title s)))
     || falsy (Some (trim (description s)))
  then
    Alert_alert "Missing Information"
      "Please fill in all fields and take a picture"
  else
    try_finally
      (try_catch
         (_ ← setState (setIsLoading true);
          let newEntry := newEntry now date s in
          existingEntriesStr ← AsyncStorage_getItem "travelEntries";
          existingEntries ←
            match truthy_text existingEntriesStr with
            | Some text => JSON_parse_or_throw text
            | None => mret (JArray [])
            end;
          existing ← liftR (spread_array existingEntries);
          let updatedEntries := JArray (existing ++ [newEntry]) in
          _ ← AsyncStorage_setItem "travelEntries"
                (JSON_stringify updatedEntries);
          _ ← Notifications_setNotificationHandler;
          _ ← Notifications_scheduleNotificationAsync
                "Travel Entry Saved! 📸"
                ("Your entry " +:+ dquote +:+ title s +:+ dquote
                   +:+ " has been saved successfully!");
          navigation_navigate "Home")
         (λ error,
            _ ← Alert_alert "Error" "Failed to save entry. Please try again.";
            console_error "Error saving entry:" error))
      (setState (setIsLoading false)).
End Handlers.

Definition setImage (v : option string) (s : State) : State :=
  mkState v (location s) (address s) (title s) (description s) (isLoading s).
Definition setLocation (v : JValue) (s : State) : State :=
  mkState (image s) v (address s) (title s) (description s) (isLoading s).
Definition setAddress (v : string) (s : State) : State :=
  mkState (image s) (location s) v (title s) (description s) (isLoading s).
Definition setTitle (v : string) (s : State) : State :=
  mkState (image s) (location s) (address s) v (description s) (isLoading s).
Definition setDescription (v : string) (s : State) : State :=
  mkState (image s) (location s) (address s) (title s) v (isLoading s).

(** The [useState] initial values. *)
Definition mount : State := mkState None JNull "" "" "" false.

(** One candidate of the reverse geocoder; each part is a string or
    [null]. *)
Record Address : Type := mkAddress {
  street : option string;
  city : option string;
  region : option string;
  country : option string
}.

(** [[addr.street, addr.city, addr.region, addr.country]
      .filter(Boolean).join(', ')] *)
Definition formatAddress (addr : Address) : string :=
  Array_join ", " (omap truthy_text [street addr; city addr; region addr; country addr]).

(** The effect on the focus flag: the form is cleared when the screen
    loses focus. *)
Definition focusEffect (isFocused : bool) (s : State) : State :=
  if isFocused then s
  else setDescription "" (setTitle "" (setAddress "" (setLocation JNull (setImage None s)))).

Section Capture.

(** [position] is the answer of the location provider and [geocode] the
    answer of the reverse geocoder to a latitude and a longitude. *)
Definition getLocation (position : JValue)
    (geocode : option JValue → option JValue → list Address) : Async State unit :=
  try_finally
    (try_catch
       (_ ← setState (setIsLoading true);
        currentLocation ← Location_getCurrentPositionAsync position;
        _ ← setState (setLocation currentLocation);
        coords ← liftR (member currentLocation "coords");
        latitude ← liftR (member_of coords "latitude");
        longitude ← liftR (member_of coords "longitude");
        addressResponse ← platform_answer (geocode latitude longitude);
        match addressResponse with
        | addr :: _ => setState (setAddress (formatAddress addr))
        | [] => mret ()
        end)
       (λ error,
          _ ← Alert_alert "Error" "Failed to get location. Please try again.";
          console_error "Error getting location:" error))
    (setState (setIsLoading false)).

Definition pickImage (picked : option string) (position : JValue)
    (geocode : option JValue → option JValue → list Address) : Async State unit :=
  try_finally
    (try_catch
       (_ ← setState (setIsLoading true);
        result ← ImagePicker_launchImageLibraryAsync picked;
        match result with
        | Some uri =>
            _ ← setState (setImage (Some uri));
            getLocation position geocode
        | None => mret ()
        end)
       (λ error,
          _ ← Alert_alert "Error" "Failed to pick image from gallery";
          console_error "Error picking image:" error))
    (setState (setIsLoading false)).

Definition takePicture (taken : option string) (position : JValue)
    (geocode : option JValue → option JValue → list Address) : Async State unit :=
  try_finally
    (try_catch
       (_ ← setState (setIsLoading true);
        result ← ImagePicker_launchCameraAsync taken;
        match result with
        | Some uri =>
            _ ← setState (setImage (Some uri));
            getLocation position geocode
        | None => mret ()
        end)
       (λ error,
          _ ← Alert_alert "Error" "Failed to take picture";
          console_error "Error taking picture:" error))
    (setState (setIsLoading false)).

(** The three answers of the permission requests; [pressed] tells whether
    the OK button of the dialog is pressed. *)
Definition requestPermissions (camera location notification : string)
    (pressed : bool) : Async State unit :=
  try_catch
    (cameraStatus ← ImagePicker_requestCameraPermissionsAsync camera;
     locationStatus ← Location_requestForegroundPermissionsAsync location;
     notificationStatus ← Notifications_requestPermissionsAsync notification;
     if not_granted cameraStatus || not_granted locationStatus
        || not_granted notificationStatus
     then
       _ ← Alert_alert "Permissions Required"
             "Camera, location, and notification permissions are required for this feature.";
       if pressed then navigation_goBack else mret ()
     else mret ())
    (λ error, console_error "Error requesting permissions:" error).
End Capture.

End AddEntryScreen.

(** ** App *)

Module App.

Record State : Type := mkState { isLoading : bool }.

Definition setIsLoading (b : bool) (s : State) : State := mkState b.

(** The answers of the permission services and the platform name. *)
Record Answers : Type := mkAnswers {
  OS : string;
  cameraStatus : string;
  locationStatus : string;
  existingStatus : string;
  requestedStatus : string
}.

Definition camera_alert : string * string :=
  ("Camera Access Required",
   "Camera access is needed to take photos for your travel memories. Please enable camera access in your device settings to use this feature.").
Definition location_alert : string * string :=
  ("Location Access Required",
   "Location access is needed to tag your travel memories with location data. Please enable location access in your device settings to use this feature.").
Definition notifications_alert : string * string :=
  ("Notifications Required",
   "Notifications are needed to remind you about your travel memories. Please enable notifications in your device settings to use this feature.").
Definition welcome_alert : string * string :=
  ("Welcome to Aljo's Travel Diary!",
   "To provide the best experience, we need to request some permissions:").

Section Handlers.
Context `{JSON}.

Definition alert_if (denied : bool) (dialog : string * string) : Async State unit :=
  if denied then Alert_alert (fst dialog) (snd dialog) else mret ().

Definition requestPermissions (a : Answers) : Async State unit :=
  try_catch
    (cameraStatus ← ImagePicker_requestCameraPermissionsAsync (cameraStatus a);
     _ ← alert_if (not_granted cameraStatus) camera_alert;
     locationStatus ← Location_requestForegroundPermissionsAsync (locationStatus a);
     _ ← alert_if (not_granted locationStatus) location_alert;
     _ ← (if String.eqb (OS a) "ios" then
            existingStatus ← Notifications_getPermissionsAsync (existingStatus a);
            finalStatus ←
              (if not_granted existingStatus
               then Notifications_requestPermissionsAsync (requestedStatus a)
               else mret existingStatus);
            alert_if (not_granted finalStatus) notifications_alert
          else
            _ ← Notifications_setNotificationChannelAsync;
            status ← Notifications_requestPermissionsAsync (requestedStatus a);
            alert_if (not_granted status) notifications_alert);
     try_catch
       (existingEntries ← AsyncStorage_getItem "travelEntries";
        if AddEntryScreen.falsy existingEntries
        then AsyncStorage_setItem "travelEntries" (JSON_stringify (JArray []))
        else mret ())
       (λ error, console_error "Error initializing AsyncStorage:" error))
    (λ error, console_error "Error requesting permissions:" error).

(** The [onPress] handler of the Continue button of the welcome dialog. *)
Definition onContinue (a : Answers) : Async State unit :=
  _ ← requestPermissions a;
  AsyncStorage_setItem "isFirstLaunch" "false".

(** [pressed] tells whether the Continue button is pressed; its handler
    runs after the function has returned. *)
Definition checkAndRequestPermissions (a : Answers) (pressed : bool)
  : Async State unit :=
  welcomed ←
    try_finally
      (try_catch
         (isFirstLaunch ← AsyncStorage_getItem "isFirstLaunch";
          if AddEntryScreen.falsy isFirstLaunch
          then
            _ ← Alert_alert (fst welcome_alert) (snd welcome_alert);
            mret true
          else
            _ ← requestPermissions a;
            mret false)
         (λ error,
            _ ← console_error "Error checking first launch:" error;
            mret false))
      (setState (setIsLoading false));
  if welcomed && pressed then fire (onContinue a) else mret ().
End Handlers.

End App.

(** ** A codec for the modelled fragment of JSON

    Texts with fractions or exponents, and escapes of code units above
    255, lie outside the fragment; [Codec.parse] rejects them. *)

Module Codec.

Definition hex_digit (n : N) : ascii :=
  match n with
  | 10 => "a" | 11 => "b" | 12 => "c" | 13 => "d" | 14 => "e" | 15 => "f"
  | _ => pretty_N_char n
  end%char%N.

Definition escape (c : ascii) : string :=
  let n := N_of_ascii c in
  if (n =? 34)%N then "\" +:+ dquote
  else if (n =? 92)%N then "\\"
  else if (n =? 8)%N then "\b"
  else if (n =? 12)%N then "\f"
  else if (n =? 10)%N then "\n"
  else if (n =? 13)%N then "\r"
  else if (n =? 9)%N then "\t"
  else if (n <? 32)%N
       then "\u00" +:+ String (hex_digit (n / 16)) (String (hex_digit (n mod 16)) "")
  else String c "".

Fixpoint escape_all (s : string) : string :=
  match s with
  | "" => ""
  | String c s' => escape c +:+ escape_all s'
  end.

Definition quote (s : string) : string := dquote +:+ escape_all s +:+ dquote.

Fixpoint join (sep : string) (parts : list string) : string :=
  match parts with
  | [] => ""
  | [part] => part
  | part :: parts' => part +:+ sep +:+ join sep parts'
  end.

Fixpoint stringify (v : JValue) : string :=
  match v with
  | JNull => "null"
  | JBool true => "true"
  | JBool false => "false"
  | JNumber n => pretty n
  | JString s => quote s
  | JArray items => "[" +:+ join "," (map stringify items) +:+ "]"
  | JObject props =>
      "{" +:+ join "," (map (λ p, quote (fst p) +:+ ":" +:+ stringify (snd p)) props)
          +:+ "}"
  end.

Definition is_ws (c : ascii) : bool :=
  match c with
  | " " | "009" | "010" | "013" => true
  | _ => false
  end%char.

Fixpoint skip_ws (s : string) : string :=
  match s with
  | "" => ""
  | String c s' => if is_ws c then skip_ws s' else s
  end.

Fixpoint strip_prefix (p s : string) : option string :=
  match p, s with
  | "", _ => Some s
  | String a p', String b s' => if Ascii.eqb a b then strip_prefix p' s' else None
  | _, _ => None
  end.

Definition hex_value (c : ascii) : option N :=
  match c with
  | "a" | "A" => Some 10 | "b" | "B" => Some 11 | "c" | "C" => Some 12
  | "d" | "D" => Some 13 | "e" | "E" => Some 14 | "f" | "F" => Some 15
  | _ => N.of_nat <$> Ascii.is_nat c
  end%char%N.

(** The characters of a string literal after its opening quote, up to
    the closing one; [acc] holds what was read, reversed. *)
Fixpoint parse_string (s : string) (acc : string) : option (string * string) :=
  match s with
  | "" => None
  | String "034"%char rest => Some (String.rev acc, rest)
  | String "\"%char (String "u"%char (String a (String b (String c (String d rest))))) =>
      match hex_value a, hex_value b, hex_value c, hex_value d with
      | Some 0%N, Some 0%N, Some h, Some l =>
          parse_string rest (String (ascii_of_N (16 * h + l)) acc)
      | _, _, _, _ => None
      end
  | String "\"%char (String e rest) =>
      match e with
      | "034" | "\" | "/" => parse_string rest (String e acc)
      | "b" => parse_string rest (String "008" acc)
      | "f" => parse_string rest (String "012" acc)
      | "n" => parse_string rest (String "010" acc)
      | "r" => parse_string rest (String "013" acc)
      | "t" => parse_string rest (String "009" acc)
      | _ => None
      end%char
  | String c rest =>
      if (N_of_ascii c <? 32)%N then None else parse_string rest (String c acc)
  end.

Fixpoint take_digits (s : string) : string * string :=
  match s with
  | "" => ("", "")
  | String c s' =>
      match Ascii.is_nat c with
      | Some _ => let '(ds, rest) := take_digits s' in (String c ds, rest)
      | None => ("", s)
      end
  end.

(** The digits of a number, after its sign. *)
Definition parse_digits (negative : bool) (s : string) : option (JValue * string) :=
  let '(ds, rest) := take_digits s in
  match ds, rest with
  | "", _ => None
  | String "0"%char (String _ _), _ => None
  | _, String "."%char _ | _, String "e"%char _ | _, String "E"%char _ => None
  | _, _ =>
      n ← digits_value ds 0;
      Some (JNumber (if negative then - Z.of_N n else Z.of_N n)%Z, rest)
  end.

Definition parse_number (s : string) : option (JValue * string) :=
  match s with
  | String "-"%char r => parse_digits true r
  | _ => parse_digits false s
  end.

(** The property table of an object whose members were read in the
    order of [members]: a repeated key keeps its first place and takes its
    last value. *)
Definition rebuild (members : list (string * JValue)) : list (string * JValue) :=
  foldl (λ props m, obj_set (fst m) (snd m) props) [] members.

Definition parse_literal (s : string) : option (JValue * string) :=
  match strip_prefix "null" s, strip_prefix "true" s, strip_prefix "false" s with
  | Some rest, _, _ => Some (JNull, rest)
  | _, Some rest, _ => Some (JBool true, rest)
  | _, _, Some rest => Some (JBool false, rest)
  | _, _, _ => parse_number s
  end.

Fixpoint parse_value (fuel : nat) (s : string) : option (JValue * string) :=
  match fuel with
  | O => None
  | S fuel' =>
      match skip_ws s with
      | String "["%char rest =>
          match skip_ws rest with
          | String "]"%char rest' => Some (JArray [], rest')
          | _ =>
              '(items, rest') ← parse_elements fuel' rest;
              Some (JArray items, rest')
          end
      | String "{"%char rest =>
          match skip_ws rest with
          | String "}"%char rest' => Some (JObject [], rest')
          | _ =>
              '(members, rest') ← parse_members fuel' rest;
              Some (JObject (foldl (λ props m, obj_set (fst m) (snd m) props)
                               [] members), rest')
          end
      | String "034"%char rest =>
          '(str, rest') ← parse_string rest "";
          Some (JString str, rest')
      | other => parse_literal other
      end
  end
with parse_elements (fuel : nat) (s : string) : option (list JValue * string) :=
  match fuel with
  | O => None
  | S fuel' =>
      '(v, rest) ← parse_value fuel' s;
      match skip_ws rest with
      | String ","%char rest' =>
          '(vs, rest'') ← parse_elements fuel' rest';
          Some (v :: vs, rest'')
      | String "]"%char rest' => Some ([v], rest')
      | _ => None
      end
  end
with parse_members (fuel : nat) (s : string)
  : option (list (string * JValue) * string) :=
  match fuel with
  | O => None
  | S fuel' =>
      match skip_ws s with
      | String "034"%char rest =>
          '(k, rest1) ← parse_string rest "";
          match skip_ws rest1 with
          | String ":"%char rest2 =>
              '(v, rest3) ← parse_value fuel' rest2;
              match skip_ws rest3 with
              | String ","%char rest' =>
                  '(ms, rest'') ← parse_members fuel' rest';
                  Some ((k, v) :: ms, rest'')
              | String "}"%char rest' => Some ([(k, v)], rest')
              | _ => None
              end
          | _ => None
          end
      | _ => None
      end
  end.

Definition parse (text : string) : option JValue :=
  match parse_value (2 * String.length text + 2) text with
  | Some (v, rest) =>
      match skip_ws rest with
      | "" => Some v
      | _ => None
      end
  | None => None
  end.

(** The text of one member of an object. *)
Definition member_text (p : string * JValue) : string :=
  quote (fst p) +:+ ":" +:+ stringify (snd p).

(** A value whose objects hold their properties the way the parser builds
    them: distinct keys, in property order. *)
#[warnings="-register-all"]
Inductive canonical : JValue → Prop :=
  | canonical_null : canonical JNull
  | canonical_bool b : canonical (JBool b)
  | canonical_number n : canonical (JNumber n)
  | canonical_string s : canonical (JString s)
  | canonical_array items : Forall canonical items → canonical (JArray items)
  | canonical_object props :
      rebuild props = props →
      Forall (λ p, canonical (snd p)) props →
      canonical (JObject props).

(** The fuel [parse_value] needs to read a value back. *)
Fixpoint cost (v : JValue) : nat :=
  match v with
  | JArray items => S (list_sum (map (λ x, S (cost x)) items))
  | JObject props => S (list_sum (map (λ p, S (cost (snd p))) props))
  | _ => 1
  end.

(** What may follow a value inside a text. *)
Definition rest_ok (rest : string) : Prop :=
  match rest with
  | "" => True
  | String c _ => c = ","%char ∨ c = "]"%char ∨ c = "}"%char
  end.

(** The characters a serialized value can start with. *)
Definition head_chars : list ascii :=
  ["n"; "t"; "f"; "-"; "0"; "1"; "2"; "3"; "4"; "5"; "6"; "7"; "8"; "9";
   "034"; "["; "{"]%char.

#[global] Instance codec : JSON := {|
  JSON_parse := parse;
  JSON_stringify := stringify;
  JSON_parse_empty := eq_refl
|}.

End Codec.


(** ** Running a handler *)

Section Run.
Context {St A : Type}.

Definition outcome (r : Result A * (St * Platform)) : Result A := r.1.
Definition state (r : Result A * (St * Platform)) : St := r.2.1.
Definition world (r : Result A * (St * Platform)) : Platform := r.2.2.
End Run.

(** ** Sample data *)

Module Sample.

Definition device (items : list (string * string)) : Platform :=
  mkPlatform (list_to_map items) [] [] [] [] [].

(** The entry of scenario B. *)
Definition beach : JValue :=
  JObject [("id", JString "1"); ("title", JString "Beach");
           ("description", JString "Nice"); ("image", JString "file://a.jpg")].

Definition harbour : JValue :=
  JObject [("id", JString "2"); ("title", JString "Harbour");
           ("description", JString "Windy"); ("image", JString "file://b.jpg")].

(** A record without a title and with an empty image. *)
Definition untitled : JValue :=
  JObject [("id", JString "3"); ("description", JString "Lost");
           ("image", JString "")].

Definition form : AddEntryScreen.State :=
  AddEntryScreen.mkState (Some "file://c.jpg") JNull "Cebu" " Reef " "Clear water"
    false.

Definition blank_form : AddEntryScreen.State :=
  AddEntryScreen.mkState (Some "file://c.jpg") JNull "Cebu" "   " "Clear water"
    false.

Definition flags : JValue := JObject [("1", JBool true)].

(** Permission answers on the two platforms. *)
Definition all_granted : App.Answers :=
  App.mkAnswers "ios" "granted" "granted" "granted" "granted".
Definition camera_denied : App.Answers :=
  App.mkAnswers "android" "denied" "granted" "undetermined" "granted".

(** An answer of the location provider, and a reverse geocoder with one
    candidate that has no street and an empty region. *)
Definition coords : JValue :=
  JObject [("latitude", JNumber 10); ("longitude", JNumber 124)].
Definition position : JValue :=
  JObject [("coords", coords); ("timestamp", JNumber 1700000000000)].
Definition cebu : AddEntryScreen.Address :=
  AddEntryScreen.mkAddress None (Some "Cebu City") (Some "") (Some "Philippines").
Definition geocoder (latitude longitude : option JValue)
  : list AddEntryScreen.Address := [cebu].

(** Two readings of the clock. *)
Definition now : Z := 1700000000000.
Definition date : string := "2023-11-14T22:13:20.000Z".

Definition home : HomeScreen.State :=
  HomeScreen.mkState [beach; harbour] false flags (JObject []) (JObject [])
    (JObject []).

End Sample.

(** Unfolds the plumbing of [Async] so that a handler applied to a state
    computes. *)
Ltac async_unfold :=
  unfold try_finally, try_catch, AsyncStorage_getItem, AsyncStorage_setItem,
    Notifications_scheduleNotificationAsync, Notifications_setNotificationHandler,
    navigation_navigate, Alert_alert, console_error, JSON_parse_or_throw,
    platform_call, platform, inspect, getState, setState, liftR, throw,
    mbind, mret, Async_bind, Async_ret, outcome, state, world in *.

(** ** Properties of the value operations *)

Definition required : list string := ["id"; "title"; "description"; "image"].

(** The test of [loadEntries] on a value that is not [null]. *)
Definition required_fields (entry : JValue) : bool :=
  truthy (own_property entry "id") && truthy (own_property entry "title")
  && truthy (own_property entry "description")
  && truthy (own_property entry "image").

(** A field that is missing, [null] or the empty string. *)
Definition blank (v : option JValue) : Prop :=
  v = None ∨ v = Some JNull ∨ v = Some (JString "").

(** The validation test of [saveEntry]. *)
Definition rejected_form (s : AddEntryScreen.State) : bool :=
  AddEntryScreen.falsy (AddEntryScreen.image s)
  || AddEntryScreen.falsy (Some (trim (AddEntryScreen.title s)))
  || AddEntryScreen.falsy (Some (trim (AddEntryScreen.description s))).

(** The test of [removeEntry] on a value that is not [null]. *)
Definition keeps (id : string) (entry : JValue) : bool :=
  negb (strict_equals (own_property entry "id") id).

(** The two dialogs of [removeEntry]. *)
Definition confirmation : string * string :=
  ("Delete Entry", "Are you sure you want to delete this entry?").
Definition removal_failure : string * string :=
  ("Error", "Failed to remove entry").

(** What [restore] finds under a key: nothing to restore ([inr None]), a
    value to store in the overlay, or a text that does not deserialize. *)
Definition readback `{JSON} (text : option string) : Result (option JValue) :=
  match truthy_text text with
  | None => inr None
  | Some t =>
      match JSON_parse t with
      | Some v => inr (Some v)
      | None => inl SyntaxError
      end
  end.

(** The overlays restored in turn, up to the first text that fails. *)
Fixpoint restore_all `{JSON} (kinds : list HomeScreen.ActionType) (p : Platform)
    (s : HomeScreen.State) : HomeScreen.State * option Exn :=
  match kinds with
  | [] => (s, None)
  | k :: kinds' =>
      match readback (storage p !! HomeScreen.storageKey k) with
      | inr None => restore_all kinds' p s
      | inr (Some v) => restore_all kinds' p (HomeScreen.setPosts k v s)
      | inl e => (s, Some e)
      end
  end.

(** The order of [loadActionStates]. *)
Definition restore_order : list HomeScreen.ActionType :=
  [HomeScreen.like; HomeScreen.comment; HomeScreen.share; HomeScreen.save].

(** [e] occurs exactly once in [l]. *)
Definition occurs_once (e : JValue) (l : list JValue) : Prop :=
  ∃ l1 l2 : list JValue, l = app l1 (e :: l2) ∧ (e ∉ l1) ∧ (e ∉ l2).

(** The collection [saveEntry] starts from: the parsed text of the
    collection key, or the empty list when the key is absent or empty;
    [None] when the text does not deserialize. *)
Definition stored_collection `{JSON} (p : Platform) : option JValue :=
  match truthy_text (storage p !! "travelEntries") with
  | Some text => JSON_parse text
  | None => Some (JArray [])
  end.

(** ** Frames and outcomes of handlers *)

(** [m] leaves the observation [π] of the state and the platform as it
    was, on every input. *)
Definition preserves {St A X : Type} (π : St * Platform → X) (m : Async St A)
  : Prop :=
  ∀ σ, π (m σ).2 = π σ.

(** [m] lets no exception escape. *)
Definition settles {St A : Type} (m : Async St A) : Prop :=
  ∀ σ, ∃ x, (m σ).1 = inr x.

(** The records a filter of [loadEntries] lets through: no [null], every
    required field truthy. *)
Definition records_only (entries : list JValue) : Prop :=
  Forall (λ e, e ≠ JNull ∧ required_fields e = true) entries.

(** What the user and the navigator do to the home screen. *)
Inductive HomeEvent : Type :=
  | Mounted
  | Focused
  | RemovePressed (id : string) (pressed : HomeScreen.Button)
  | ActionPressed (id : string) (type : HomeScreen.ActionType).

Definition home_step `{JSON} (event : HomeEvent) : Async HomeScreen.State unit :=
  match event with
  | Mounted => HomeScreen.mountEffect
  | Focused => HomeScreen.focusListener
  | RemovePressed id pressed => fire (HomeScreen.removeEntry id pressed)
  | ActionPressed id type => fire (HomeScreen.toggleAction id type)
  end.

Fixpoint home_run `{JSON} (events : list HomeEvent)
    (σ : HomeScreen.State * Platform) : HomeScreen.State * Platform :=
  match events with
  | [] => σ
  | event :: events' => home_run events' (home_step event σ).2
  end.

(** The status the notification branch of [App.requestPermissions] ends
    with. *)
Definition finalStatus (a : App.Answers) : string :=
  if String.eqb (App.OS a) "ios" && negb (not_granted (App.existingStatus a))
  then App.existingStatus a
  else App.requestedStatus a.

(** The dialogs [App.requestPermissions] shows for the answers [a]. *)
Definition refusals (a : App.Answers) : list (string * string) :=
  (if not_granted (App.cameraStatus a) then [App.camera_alert] else [])
  ++ (if not_granted (App.locationStatus a) then [App.location_alert] else [])
  ++ (if not_granted (finalStatus a) then [App.notifications_alert] else []).

(** The store after the initialisation of [App.requestPermissions]: a
    collection key that is absent or empty receives the serialized empty
    list. *)
Definition initialised `{JSON} (m : gmap string string) : gmap string string :=
  if AddEntryScreen.falsy (m !! "travelEntries")
  then <["travelEntries" := JSON_stringify (JArray [])]> m
  else m.

(** The fields of the form the user filled in. *)
Definition form_fields (s : AddEntryScreen.State)
  : option string * JValue * string * string * string :=
  (AddEntryScreen.image s, AddEntryScreen.location s, AddEntryScreen.address s,
   AddEntryScreen.title s, AddEntryScreen.description s).

Lemma truthy_not_blank v : truthy v = true → ¬ blank v.
Proof. intros Ht [-> | [-> | ->]]; discriminate. Qed.

Lemma truthy_string s : truthy (Some (JString s)) = true ↔ s ≠ "".
Proof.
  simpl. destruct (String.eqb_spec s ""); simpl; split; intros; congruence.
Qed.

Lemma valid_entry_null : HomeScreen.valid_entry JNull = inl TypeError.
Proof. reflexivity. Qed.

Lemma valid_entry_required entry :
  entry ≠ JNull → HomeScreen.valid_entry entry = inr (required_fields entry).
Proof.
  intros Hn.
  assert (Hm : ∀ k, member entry k = inr (own_property entry k))
    by (intros k; by destruct entry).
  unfold HomeScreen.valid_entry, required_fields, and_then.
  rewrite !Hm. unfold mbind, mret, Result_bind, Result_ret.
  destruct (truthy (own_property entry "id")) eqn:Hid;
    destruct (truthy (own_property entry "title")) eqn:Htitle;
    destruct (truthy (own_property entry "description")) eqn:Hdesc;
    simpl; repeat (rewrite ?Hid, ?Htitle, ?Hdesc; simpl); reflexivity.
Qed.

Lemma required_fields_not_blank entry k :
  required_fields entry = true → k ∈ required → ¬ blank (own_property entry k).
Proof.
  unfold required_fields, required. intros Hr Hk.
  repeat (apply andb_prop in Hr as [Hr ?]).
  apply truthy_not_blank.
  repeat (apply elem_of_cons in Hk as [-> | Hk]; [assumption |]).
  by apply elem_of_nil in Hk.
Qed.

Lemma blank_not_required entry k :
  k ∈ required → blank (own_property entry k) → required_fields entry = false.
Proof.
  intros Hk Hb. destruct (required_fields entry) eqn:Hr; [| reflexivity].
  by destruct (required_fields_not_blank entry k Hr Hk).
Qed.

Lemma filter_items_valid items :
  JNull ∉ items →
  filter_items HomeScreen.valid_entry items = inr (List.filter required_fields items).
Proof.
  induction items as [| x xs IH]; intros Hn; [reflexivity |].
  apply not_elem_of_cons in Hn as [Hx Hxs]. simpl.
  rewrite valid_entry_required by congruence. simpl.
  rewrite IH by assumption. simpl. by destruct (required_fields x).
Qed.

Lemma filter_items_cases items :
  filter_items HomeScreen.valid_entry items = inr (List.filter required_fields items)
  ∨ filter_items HomeScreen.valid_entry items = inl TypeError.
Proof.
  induction items as [| x xs IH]; [by left |]. simpl.
  destruct x; try (right; reflexivity);
    (rewrite valid_entry_required by discriminate; simpl;
     destruct IH as [-> | ->]; simpl; [left | right]; try reflexivity;
     match goal with |- context [required_fields ?v] =>
       by destruct (required_fields v) end).
Qed.

Lemma elem_of_filter_required e items :
  e ∈ List.filter required_fields items ↔ e ∈ items ∧ required_fields e = true.
Proof. rewrite !list_elem_of_In. apply filter_In. Qed.

(** ** [loadEntries] *)

Section LoadEntries.
Context `{JSON}.
Import HomeScreen.

Lemma loadEntries_absent s p :
  faults p = [] →
  truthy_text (storage p !! "travelEntries") = None →
  loadEntries (s, p)
  = (inr (), (setLoading false (setEntries [] (setLoading true s)), p)).
Proof.
  intros Hf Ha. unfold loadEntries. async_unfold. simpl.
  rewrite Hf. simpl. by rewrite Ha.
Qed.

Lemma loadEntries_parsed s p text v :
  faults p = [] →
  truthy_text (storage p !! "travelEntries") = Some text →
  JSON_parse text = Some v →
  loadEntries (s, p)
  = match Array_filter valid_entry v with
    | inr kept =>
        (inr (), (setLoading false (setEntries kept (setLoading true s)), p))
    | inl e =>
        (inr (), (setLoading false (setEntries [] (setLoading true s)),
                  with_console (console p ++ [("Error parsing entries:", e)]) p))
    end.
Proof.
  intros Hf Ht Hp. unfold loadEntries. async_unfold. simpl.
  rewrite Hf. simpl. rewrite Ht, Hp. simpl.
  by destruct (Array_filter valid_entry v).
Qed.

Lemma loadEntries_unparsed s p text :
  faults p = [] →
  truthy_text (storage p !! "travelEntries") = Some text →
  JSON_parse text = None →
  loadEntries (s, p)
  = (inr (), (setLoading false (setEntries [] (setLoading true s)),
              with_console (console p ++ [("Error parsing entries:", SyntaxError)]) p)).
Proof.
  intros Hf Ht Hp. unfold loadEntries. async_unfold. simpl.
  rewrite Hf. simpl. by rewrite Ht, Hp.
Qed.

Lemma truthy_text_parsed text v :
  JSON_parse text = Some v → truthy_text (Some text) = Some text.
Proof.
  intros Hp. simpl. destruct (String.eqb_spec text "") as [-> |]; [| done].
  rewrite JSON_parse_empty in Hp. discriminate.
Qed.

(** Loading a list of records that ends with a complete record. *)
Lemma loadEntries_appended s p text items e :
  faults p = [] →
  storage p !! "travelEntries" = Some text →
  JSON_parse text = Some (JArray (items ++ [e])) →
  JNull ∉ items →
  required_fields e = true →
  loadEntries (s, p)
  = (inr (),
     (setLoading false
        (setEntries (List.filter required_fields items ++ [e]) (setLoading true s)),
      p)).
Proof.
  intros Hf Hs Hp Hn He.
  erewrite loadEntries_parsed; [| done | | exact Hp].
  2: { rewrite Hs. by eapply truthy_text_parsed. }
  simpl. rewrite filter_items_valid.
  2: { intros Hin. apply elem_of_app in Hin as [Hin | Hin]; [done |].
       apply list_elem_of_singleton in Hin. by subst e. }
  rewrite List.filter_app. simpl. by rewrite He.
Qed.
End LoadEntries.

(** ** The entry repository: loading *)

Section LoadAll.
Context `{JSON}.
Import HomeScreen.

(** C1. When the stored collection text parses as a list, [loadEntries]
    raises nothing and shows no alert; every record it returns comes from
    the list and has none of [id], [title], [description], [image]
    missing, [null] or empty; every record of the list with such a blank
    field is left out; and when the list holds no [null], the result is
    the list filtered by the test of the code, with nothing logged. *)
Theorem loadEntries_keeps_complete_records s p text items :
  faults p = [] →
  storage p !! "travelEntries" = Some text →
  JSON_parse text = Some (JArray items) →
  let r := loadEntries (s, p) in
  outcome r = inr ()
  ∧ alerts (world r) = alerts p
  ∧ storage (world r) = storage p
  ∧ (∀ e, e ∈ entries (state r) →
       e ∈ items ∧ ∀ k, k ∈ required → ¬ blank (own_property e k))
  ∧ (∀ e k, e ∈ items → k ∈ required → blank (own_property e k) →
       e ∉ entries (state r))
  ∧ (JNull ∉ items →
       entries (state r) = List.filter required_fields items
       ∧ console (world r) = console p).
Proof.
  intros Hf Hs Hp r.
  assert (Ht : truthy_text (storage p !! "travelEntries") = Some text)
    by (rewrite Hs; eauto using truthy_text_parsed).
  assert (Hsub : ∀ e, e ∈ entries (state r) →
                      e ∈ List.filter required_fields items).
  { subst r. rewrite (loadEntries_parsed s p text _ Hf Ht Hp). simpl.
    destruct (filter_items_cases items) as [-> | ->]; simpl; [done |].
    intros e He. by apply elem_of_nil in He. }
  assert (Hrun : loadEntries (s, p)
                 = match filter_items valid_entry items with
                   | inr kept =>
                       (inr (),
                        (setLoading false (setEntries kept (setLoading true s)), p))
                   | inl e =>
                       (inr (),
                        (setLoading false (setEntries [] (setLoading true s)),
                         with_console
                           (console p ++ [("Error parsing entries:", e)]) p))
                   end)
    by apply (loadEntries_parsed s p text _ Hf Ht Hp).
  split; [| split; [| split; [| split; [| split]]]].
  - subst r. rewrite Hrun. by destruct (filter_items valid_entry items).
  - subst r. rewrite Hrun. by destruct (filter_items valid_entry items).
  - subst r. rewrite Hrun. by destruct (filter_items valid_entry items).
  - intros e He. apply Hsub, elem_of_filter_required in He as [He Hr].
    split; [exact He |]. intros k Hk. by apply required_fields_not_blank.
  - intros e k He Hk Hb Hin.
    apply Hsub, elem_of_filter_required in Hin as [_ Hr].
    rewrite (blank_not_required e k Hk Hb) in Hr. discriminate.
  - intros Hn. subst r. rewrite Hrun, (filter_items_valid items) by assumption.
    by split.
Qed.

(** C2, as the code has it. When the collection key is absent from the
    store, [loadEntries] returns an empty sequence and leaves the
    platform, the store included, as it was: nothing is written. *)
Theorem loadEntries_absent_key s p :
  faults p = [] →
  storage p !! "travelEntries" = None →
  let r := loadEntries (s, p) in
  outcome r = inr () ∧ entries (state r) = [] ∧ world r = p.
Proof.
  intros Hf Hs r. subst r.
  rewrite (loadEntries_absent s p Hf) by (by rewrite Hs). done.
Qed.

(** C7. When the collection key holds text that does not deserialize,
    [loadEntries] raises nothing, returns an empty sequence, shows no
    alert and leaves the store alone; the failure is only logged (an
    empty text is not even parsed, and nothing is logged for it). *)
Theorem loadEntries_corrupt_text s p text :
  faults p = [] →
  storage p !! "travelEntries" = Some text →
  JSON_parse text = None →
  let r := loadEntries (s, p) in
  outcome r = inr ()
  ∧ entries (state r) = []
  ∧ alerts (world r) = alerts p
  ∧ storage (world r) = storage p
  ∧ console (world r)
    = (console p ++ (if String.eqb text "" then []
                     else [("Error parsing entries:", SyntaxError)]))%list.
Proof.
  intros Hf Hs Hp r. subst r.
  destruct (String.eqb text "") eqn:He.
  - rewrite (loadEntries_absent s p Hf) by (by rewrite Hs; simpl; rewrite He).
    simpl. by rewrite app_nil_r.
  - rewrite (loadEntries_unparsed s p text Hf) by
      (by first [rewrite Hs; simpl; rewrite He | assumption]).
    done.
Qed.
End LoadAll.

(** A store holding the two complete sample records and an incomplete one. *)
Lemma loadEntries_keeps_complete_records_witness :
  let p := Sample.device
             [("travelEntries",
               Codec.stringify
                 (JArray [Sample.beach; Sample.untitled; Sample.harbour]))] in
  let r := HomeScreen.loadEntries (HomeScreen.mount, p) in
  HomeScreen.entries (state r) = [Sample.beach; Sample.harbour]
  ∧ console (world r) = [].
Proof.
  intros p r.
  destruct (loadEntries_keeps_complete_records HomeScreen.mount p
              (Codec.stringify (JArray [Sample.beach; Sample.untitled; Sample.harbour]))
              [Sample.beach; Sample.untitled; Sample.harbour])
    as (_ & _ & _ & _ & _ & Hall).
  - reflexivity.
  - vm_compute. reflexivity.
  - vm_compute. reflexivity.
  - apply Hall. intros Hin.
    repeat (apply elem_of_cons in Hin as [Hin | Hin]; [discriminate |]).
    by apply elem_of_nil in Hin.
Defined.

(** C2 as stated fails: on a fresh device nothing is written under the
    collection key. *)
Lemma loadEntries_absent_key_not_initialised :
  let p := Sample.device [] in
  let r := HomeScreen.loadEntries (HomeScreen.mount, p) in
  faults p = []
  ∧ storage p !! "travelEntries" = None
  ∧ ¬ (HomeScreen.entries (state r) = []
       ∧ storage (world r) !! "travelEntries" = Some (JSON_stringify (JArray []))).
Proof.
  split; [reflexivity |]. split; [reflexivity |].
  intros [_ Hw]. vm_compute in Hw. discriminate.
Qed.

Lemma loadEntries_absent_key_witness :
  let r := HomeScreen.loadEntries (HomeScreen.mount, Sample.device []) in
  outcome r = inr () ∧ HomeScreen.entries (state r) = []
  ∧ world r = Sample.device [].
Proof.
  apply (loadEntries_absent_key HomeScreen.mount (Sample.device []));
    reflexivity.
Defined.

Lemma loadEntries_corrupt_text_witness :
  let p := Sample.device [("travelEntries", "[{")] in
  let r := HomeScreen.loadEntries (Sample.home, p) in
  outcome r = inr ()
  ∧ HomeScreen.entries (state r) = []
  ∧ alerts (world r) = []
  ∧ storage (world r) = storage p
  ∧ console (world r) = [("Error parsing entries:", SyntaxError)].
Proof.
  intros p.
  apply (loadEntries_corrupt_text Sample.home p "[{");
    [reflexivity | vm_compute; reflexivity | vm_compute; reflexivity].
Defined.

(** ** The capture flow: saving *)

Lemma pretty_N_go_nonempty x s : s ≠ "" → pretty_N_go x s ≠ "".
Proof.
  revert s. induction (N.lt_wf_0 x) as [x _ IH]; intros s Hs.
  assert (x = 0 ∨ 0 < x)%N as [-> | Hx] by lia.
  - by rewrite pretty_N_go_0.
  - rewrite pretty_N_go_step by done. apply IH; [by apply N.div_lt | done].
Qed.

Lemma pretty_N_nonempty (x : N) : pretty x ≠ "".
Proof.
  unfold pretty, pretty_N. case_decide as Hx; [done |].
  rewrite pretty_N_go_step by lia. by apply pretty_N_go_nonempty.
Qed.

(** [Date.now().toString()] is never the empty string. *)
Lemma pretty_Z_nonempty (z : Z) : pretty z ≠ "".
Proof.
  destruct z as [| x | x]; unfold pretty, pretty_Z; [done | |].
  - apply pretty_N_nonempty.
  - done.
Qed.

(** ** The codec reads back what it writes *)

Section ReadBack.
Import Codec.

Lemma append_cons c s t : String c s +:+ t = String c (s +:+ t).
Proof. reflexivity. Qed.

Lemma append_assoc s t u : (s +:+ t) +:+ u = s +:+ (t +:+ u).
Proof. induction s as [| c s IH]; [reflexivity |]. by rewrite !append_cons, IH. Qed.

Lemma append_nil_r s : s +:+ "" = s.
Proof. induction s as [| c s IH]; [reflexivity |]. by rewrite append_cons, IH. Qed.

(** Reading the escape of one character gives the character back. *)
Lemma parse_string_escape c tail acc :
  parse_string (escape c +:+ tail) acc = parse_string tail (String c acc).
Proof. destruct c as [[] [] [] [] [] [] [] []]; reflexivity. Qed.

Lemma rev_app_rev_app s a b :
  String.rev_app (String.rev_app s a) b = String.rev_app a (s +:+ b).
Proof.
  revert a b. induction s as [| c s IH]; intros a b; simpl.
  - (* rev_app a b = rev_app a ("" ++ b) *) reflexivity.
  - rewrite IH. reflexivity.
Qed.

Lemma parse_string_escape_all s rest acc :
  parse_string (escape_all s +:+ String "034"%char rest) acc
  = Some (String.rev (String.rev_app s acc), rest).
Proof.
  revert acc. induction s as [| c s IH]; intros acc; [reflexivity |].
  simpl. rewrite append_assoc, parse_string_escape. apply IH.
Qed.

Lemma parse_string_quote s rest :
  parse_string (escape_all s +:+ String "034"%char rest) "" = Some (s, rest).
Proof.
  rewrite parse_string_escape_all. unfold String.rev.
  by rewrite rev_app_rev_app, append_nil_r.
Qed.

Lemma pretty_N_go_app x s t : pretty_N_go x s +:+ t = pretty_N_go x (s +:+ t).
Proof.
  revert s. induction (N.lt_wf_0 x) as [x _ IH]; intros s.
  assert (x = 0 ∨ 0 < x)%N as [-> | Hx] by lia.
  - by rewrite !pretty_N_go_0.
  - rewrite (pretty_N_go_step x s), (pretty_N_go_step x (s +:+ t)) by done.
    rewrite IH by by apply N.div_lt. reflexivity.
Qed.

Lemma is_nat_pretty_N_char d :
  (d < 10)%N → Ascii.is_nat (pretty_N_char d) = Some (N.to_nat d).
Proof.
  intros Hd.
  assert (d = 0 ∨ d = 1 ∨ d = 2 ∨ d = 3 ∨ d = 4 ∨ d = 5 ∨ d = 6 ∨ d = 7
          ∨ d = 8 ∨ d = 9)%N as Hcases by lia.
  repeat (destruct Hcases as [-> | Hcases]; [reflexivity |]). by subst.
Qed.

(** The decimal digits written for [x] have the value [x]. *)
Lemma digits_value_pretty_N_go x :
  ∃ m, ∀ s acc,
    digits_value (pretty_N_go x s) acc = digits_value s (acc * m + x)%N.
Proof.
  induction (N.lt_wf_0 x) as [x _ IH].
  assert (x = 0 ∨ 0 < x)%N as [-> | Hx] by lia.
  - exists 1%N. intros s acc. rewrite pretty_N_go_0. f_equal. lia.
  - destruct (IH (x `div` 10)%N) as [m Hm]; [by apply N.div_lt |].
    exists (10 * m)%N. intros s acc.
    rewrite pretty_N_go_step, Hm by done. simpl.
    rewrite is_nat_pretty_N_char by (apply N.mod_lt; lia).
    rewrite N2Nat.id. f_equal.
    pose proof (N.div_mod x 10 ltac:(lia)). lia.
Qed.

Lemma digits_value_pretty_N (x : N) : digits_value (pretty x) 0 = Some x.
Proof.
  unfold pretty, pretty_N. case_decide as Hx; [by subst |].
  destruct (digits_value_pretty_N_go x) as [m Hm]. rewrite Hm. simpl. by f_equal.
Qed.

Lemma take_digits_pretty_N_go x s :
  take_digits (pretty_N_go x s)
  = (pretty_N_go x (take_digits s).1, (take_digits s).2).
Proof.
  revert s. induction (N.lt_wf_0 x) as [x _ IH]; intros s.
  assert (x = 0 ∨ 0 < x)%N as [-> | Hx] by lia.
  - rewrite !pretty_N_go_0. by destruct (take_digits s).
  - rewrite (pretty_N_go_step x s), (pretty_N_go_step x (take_digits s).1) by done.
    rewrite IH by by apply N.div_lt.
    simpl. rewrite is_nat_pretty_N_char by (apply N.mod_lt; lia).
    by destruct (take_digits s).
Qed.

Lemma take_digits_rest_ok rest : rest_ok rest → take_digits rest = ("", rest).
Proof.
  destruct rest as [| c r]; [done |]. simpl.
  by intros [-> | [-> | ->]].
Qed.

(** A positive number is written without a leading zero. *)
Lemma pretty_N_go_head x s :
  (0 < x)%N →
  ∃ d s', (0 < d < 10)%N ∧ pretty_N_go x s = String (pretty_N_char d) s'.
Proof.
  revert s. induction (N.lt_wf_0 x) as [x _ IH]; intros s Hx.
  assert (x < 10 ∨ 10 ≤ x)%N as [Hlt | Hge] by lia.
  - exists x, s. split; [lia |].
    rewrite pretty_N_go_step by done.
    rewrite N.div_small, N.mod_small by done. by rewrite pretty_N_go_0.
  - rewrite pretty_N_go_step by done. apply IH.
    + by apply N.div_lt.
    + apply N.div_str_pos. lia.
Qed.

Lemma parse_digits_pretty negative (x : N) rest :
  rest_ok rest →
  parse_digits negative (pretty x +:+ rest)
  = Some (JNumber (if negative then - Z.of_N x else Z.of_N x)%Z, rest).
Proof.
  intros Hrest. unfold parse_digits, pretty, pretty_N.
  case_decide as Hx.
  - subst x. rewrite append_cons. simpl take_digits.
    rewrite take_digits_rest_ok by done. simpl.
    destruct rest as [| c r]; [done |].
    by destruct Hrest as [-> | [-> | ->]].
  - rewrite pretty_N_go_app, take_digits_pretty_N_go, take_digits_rest_ok by done.
    cbn [fst snd].
    destruct (digits_value_pretty_N_go x) as [m Hm].
    specialize (Hm "" 0%N). simpl in Hm.
    destruct (pretty_N_go_head x "") as (d & s' & Hd & Hs); [lia |].
    rewrite Hs in *.
    assert (d = 1 ∨ d = 2 ∨ d = 3 ∨ d = 4 ∨ d = 5 ∨ d = 6 ∨ d = 7 ∨ d = 8
            ∨ d = 9)%N as Hcases by lia.
    destruct rest as [| c r].
    + repeat (destruct Hcases as [-> | Hcases]; [by rewrite Hm |]).
      subst. by rewrite Hm.
    + destruct Hrest as [-> | [-> | ->]];
        (repeat (destruct Hcases as [-> | Hcases]; [by rewrite Hm |]));
        subst; by rewrite Hm.
Qed.

Lemma pretty_Z_head (z : Z) rest :
  ∃ c s', pretty z +:+ rest = String c s'
          ∧ In c ["-"; "0"; "1"; "2"; "3"; "4"; "5"; "6"; "7"; "8"; "9"]%char.
Proof.
  destruct z as [| x | x]; unfold pretty, pretty_Z.
  - exists "0"%char, rest. split; [done |]. simpl. tauto.
  - unfold pretty, pretty_positive, pretty, pretty_N. simpl.
    destruct (pretty_N_go_head (N.pos x) "") as (d & s' & Hd & ->); [lia |].
    exists (pretty_N_char d), (s' +:+ rest). split; [done |].
    assert (d = 1 ∨ d = 2 ∨ d = 3 ∨ d = 4 ∨ d = 5 ∨ d = 6 ∨ d = 7 ∨ d = 8
            ∨ d = 9)%N as Hcases by lia.
    repeat (destruct Hcases as [-> | Hcases]; [simpl; tauto |]).
    subst. simpl. tauto.
  - eexists "-"%char, _. split; [reflexivity |]. simpl. tauto.
Qed.

Lemma stringify_head v rest :
  ∃ c s', stringify v +:+ rest = String c s' ∧ In c head_chars.
Proof.
  destruct v as [| [] | n | s | items | props];
    try (eexists _, _; split; [reflexivity |]; simpl; tauto).
  destruct (pretty_Z_head n rest) as (c & s' & Heq & Hc).
  exists c, s'. split; [done |]. simpl in *. tauto.
Qed.

(** Splits a membership in a list of characters into its cases. *)
Ltac head_cases H :=
  simpl in H; repeat (destruct H as [<- | H]); [.. | destruct H].

Lemma parse_value_number fuel (z : Z) rest :
  rest_ok rest →
  parse_value (S fuel) (pretty z +:+ rest) = Some (JNumber z, rest).
Proof.
  intros Hrest.
  assert (Hlit : parse_literal (pretty z +:+ rest) = Some (JNumber z, rest)).
  { destruct z as [| x | x]; unfold pretty, pretty_Z.
    - apply (parse_digits_pretty false 0%N rest Hrest).
    - pose proof (parse_digits_pretty false (N.pos x) rest Hrest) as Hd.
      change (pretty x) with (pretty (N.pos x)).
      destruct (pretty_Z_head (Z.pos x) rest) as (c & s' & Heq & Hc).
      change (pretty (Z.pos x)) with (pretty (N.pos x)) in Heq.
      rewrite Heq in *. head_cases Hc; try exact Hd.
      (* a positive number does not print with a sign *)
      exfalso. unfold pretty, pretty_N in Heq. simpl in Heq.
      rewrite pretty_N_go_app in Heq.
      by apply (pretty_N_go_ne_dash (N.pos x) ("" +:+ rest) s').
    - pose proof (parse_digits_pretty true (N.pos x) rest Hrest) as Hd.
      exact Hd. }
  destruct (pretty_Z_head z rest) as (c & s' & Heq & Hc).
  rewrite Heq in *. head_cases Hc; exact Hlit.
Qed.

Lemma dquote_app t : dquote +:+ t = String "034"%char t.
Proof. reflexivity. Qed.

Section Structure.
Variable F : nat.
Hypothesis parse_value_below :
  ∀ f v rest, (f < F)%nat → (cost v ≤ f)%nat → canonical v → rest_ok rest →
    parse_value f (stringify v +:+ rest) = Some (v, rest).

(** The elements of an array and the members of an object, given that
    values are read back with less fuel. *)
Lemma parse_elements_ok items f rest :
  (f < F)%nat →
  items ≠ [] →
  Forall canonical items →
  (list_sum (map (λ x, S (cost x)) items) ≤ f)%nat →
  parse_elements f (join "," (map stringify items) +:+ String "]" rest)
  = Some (items, rest).
Proof.
  revert f. induction items as [| x xs IH]; intros f Hf Hne Hcan Hcost; [done |].
  apply Forall_cons in Hcan as [Hx Hxs].
  destruct f as [| f']; [simpl in Hcost; lia |].
  simpl in Hcost. cbn [parse_elements].
  destruct xs as [| y ys].
  - cbn [map join].
    rewrite (parse_value_below f' x (String "]" rest)); [done | lia | lia | done |].
    simpl. tauto.
  - change (join "," (map stringify (x :: y :: ys)))
      with (stringify x +:+ "," +:+ join "," (map stringify (y :: ys))).
    rewrite !append_assoc.
    rewrite (parse_value_below f' x); [| lia | lia | done | simpl; tauto].
    cbn [mbind option_bind]. rewrite append_cons. cbn [skip_ws is_ws].
    change ("" +:+ ?t) with t.
    rewrite (IH f'); [done | lia | done | done | lia].
Qed.

Lemma parse_members_ok props f rest :
  (f < F)%nat →
  props ≠ [] →
  Forall (λ p, canonical (snd p)) props →
  (list_sum (map (λ p, S (cost (snd p))) props) ≤ f)%nat →
  parse_members f (join "," (map member_text props) +:+ String "}" rest)
  = Some (props, rest).
Proof.
  revert f. induction props as [| [k x] ps IH]; intros f Hf Hne Hcan Hcost;
    [done |].
  apply Forall_cons in Hcan as [Hx Hps]. simpl in Hx.
  destruct f as [| f']; [simpl in Hcost; lia |].
  simpl in Hcost. cbn [parse_members].
  destruct ps as [| q qs].
  - cbn [map join]. unfold member_text, quote. cbn [fst snd].
    rewrite !append_assoc, !dquote_app, !append_cons. cbn [skip_ws is_ws].
    change ("" +:+ ?t) with t.
    rewrite parse_string_quote. cbn [mbind option_bind]. cbn [skip_ws is_ws].
    rewrite (parse_value_below f' x (String "}" rest)); [done | lia | lia | done |].
    simpl. tauto.
  - change (join "," (map member_text ((k, x) :: q :: qs)))
      with (member_text (k, x) +:+ "," +:+ join "," (map member_text (q :: qs))).
    unfold member_text at 1. unfold quote. cbn [fst snd].
    rewrite !append_assoc, !dquote_app, !append_cons. cbn [skip_ws is_ws].
    change ("" +:+ ?t) with t.
    rewrite parse_string_quote. cbn [mbind option_bind]. cbn [skip_ws is_ws].
    rewrite (parse_value_below f' x); [| lia | lia | done | simpl; tauto].
    cbn [mbind option_bind]. cbn [skip_ws is_ws].
    change ("" +:+ ?t) with t.
    rewrite (IH f'); [done | lia | done | done | lia].
Qed.
End Structure.

(** A canonical value followed by a separator is read back, with fuel
    enough for its size. *)
Lemma parse_value_stringify fuel :
  ∀ v rest, (cost v ≤ fuel)%nat → canonical v → rest_ok rest →
    parse_value fuel (stringify v +:+ rest) = Some (v, rest).
Proof.
  induction (lt_wf fuel) as [fuel _ IH]. intros v rest Hcost Hcan Hrest.
  destruct fuel as [| f]; [destruct v; simpl in Hcost; lia |].
  destruct v as [| [] | n | s | items | props].
  - reflexivity.
  - reflexivity.
  - reflexivity.
  - by apply parse_value_number.
  - cbn [stringify]. unfold quote.
    rewrite !append_assoc, !dquote_app. cbn [parse_value skip_ws is_ws].
    by rewrite parse_string_quote.
  - inversion Hcan as [| | | | items' Hitems |]; subst.
    destruct items as [| x xs]; [reflexivity |].
    cbn [stringify]. rewrite !append_assoc, append_cons.
    change ("" +:+ ?t) with t. rewrite append_cons. change ("" +:+ ?t) with t.
    cbn [parse_value skip_ws is_ws].
    assert (Hrun : parse_elements f
                     (join "," (map stringify (x :: xs)) +:+ String "]" rest)
                   = Some (x :: xs, rest)).
    { apply (parse_elements_ok (S f)); [| lia | done | done |].
      - intros f' v' rest' Hf'. by apply IH.
      - simpl in Hcost. simpl. lia. }
    change (join "," (map stringify (x :: xs)))
      with (join "," (stringify x :: map stringify xs)) in *.
    destruct (stringify_head x
                (match xs with
                 | [] => ""
                 | _ => "," +:+ join "," (map stringify xs)
                 end +:+ String "]" rest)) as (c & s' & Heq & Hc).
    assert (Htext : join "," (stringify x :: map stringify xs) +:+ String "]" rest
                    = String c s').
    { rewrite <- Heq. destruct xs; simpl; by rewrite ?append_assoc. }
    rewrite Htext in *. head_cases Hc; by rewrite Hrun.
  - inversion Hcan as [| | | | | props' Hbuild Hprops]; subst.
    destruct props as [| [k x] ps]; [reflexivity |].
    cbn [stringify]. rewrite !append_assoc, append_cons.
    change ("" +:+ ?t) with t. rewrite append_cons. change ("" +:+ ?t) with t.
    cbn [parse_value skip_ws is_ws].
    assert (Hrun : parse_members f
                     (join "," (map member_text ((k, x) :: ps)) +:+ String "}" rest)
                   = Some ((k, x) :: ps, rest)).
    { apply (parse_members_ok (S f)); [| lia | done | done |].
      - intros f' v' rest' Hf'. by apply IH.
      - simpl in Hcost. simpl. lia. }
    change (map (λ p, quote p.1 +:+ ":" +:+ stringify p.2) ((k, x) :: ps))
      with (map member_text ((k, x) :: ps)).
    assert (Htext : ∃ s', join "," (map member_text ((k, x) :: ps)) +:+ String "}" rest
                          = String "034"%char s').
    { destruct ps; simpl; unfold member_text, quote; cbn [fst snd];
        rewrite !append_assoc, dquote_app; eauto. }
    destruct Htext as [s' Htext]. rewrite Htext in *.
    cbn [skip_ws is_ws]. rewrite Hrun. cbn [mbind option_bind].
    fold (rebuild ((k, x) :: ps)). by rewrite Hbuild.
Qed.


Lemma length_append s t :
  String.length (s +:+ t) = (String.length s + String.length t)%nat.
Proof. induction s as [| c s IH]; [done |]. rewrite append_cons. simpl. by rewrite IH. Qed.

Lemma cost_join {A} (c : A → nat) (t : A → string) (l : list A) :
  Forall (λ a, c a ≤ 2 * String.length (t a))%nat l →
  (list_sum (map (λ a, S (c a)) l)
   ≤ 2 * String.length (join "," (map t l)) + 1)%nat.
Proof.
  induction l as [| a l IH]; intros Hall; [simpl; lia |].
  apply Forall_cons in Hall as [Ha Hl]. specialize (IH Hl).
  destruct l as [| b l].
  - simpl in *. lia.
  - change (join "," (map t (a :: b :: l)))
      with (t a +:+ "," +:+ join "," (map t (b :: l))).
    change (list_sum (map (λ a, S (c a)) (a :: b :: l)))
      with (S (c a) + list_sum (map (λ a, S (c a)) (b :: l)))%nat.
    remember (join "," (map t (b :: l))) as rest.
    remember (list_sum (map (λ a, S (c a)) (b :: l))) as sum.
    rewrite !length_append. simpl String.length. lia.
Qed.

(** The fuel [parse] starts with covers the text of any value. *)
Lemma cost_le_length v : (cost v ≤ 2 * String.length (stringify v))%nat.
Proof.
  induction v as [| b | n | s | items IH | props IH] using JValue_nested_ind.
  - simpl. lia.
  - destruct b; simpl; lia.
  - simpl. pose proof (pretty_Z_nonempty n).
    destruct (pretty n); [done | simpl; lia].
  - cbn [cost stringify]. unfold quote. rewrite !length_append.
    change (String.length dquote) with 1%nat. lia.
  - cbn [cost stringify]. rewrite !length_append.
    pose proof (cost_join cost stringify items IH) as Hj.
    remember (join "," (map stringify items)) as text.
    remember (list_sum (map (λ x, S (cost x)) items)) as sum.
    simpl String.length. lia.
  - cbn [cost stringify].
    change (map (λ p, quote p.1 +:+ ":" +:+ stringify p.2) props)
      with (map member_text props).
    rewrite !length_append.
    assert (Hm : Forall (λ p, cost (snd p) ≤ 2 * String.length (member_text p))%nat
                   props).
    { eapply Forall_impl; [exact IH |]. intros [k x] Hx. cbn [fst snd] in *.
      unfold member_text. cbn [fst snd]. rewrite !length_append. lia. }
    pose proof (cost_join (λ p, cost (snd p)) member_text props Hm) as Hj.
    remember (join "," (map member_text props)) as text.
    remember (list_sum (map (λ p, S (cost (snd p))) props)) as sum.
    simpl String.length. lia.
Qed.

(** What [Codec.stringify] writes, [Codec.parse] reads back. *)
Theorem parse_stringify v : canonical v → parse (stringify v) = Some v.
Proof.
  intros Hcan. unfold parse.
  pose proof (parse_value_stringify (2 * String.length (stringify v) + 2) v "")
    as Hrt.
  rewrite append_nil_r in Hrt. rewrite Hrt; [done | | done | done].
  pose proof (cost_le_length v). lia.
Qed.
End ReadBack.

Lemma falsy_Some t : AddEntryScreen.falsy (Some t) = false ↔ t ≠ "".
Proof.
  unfold AddEntryScreen.falsy. simpl.
  destruct (String.eqb_spec t ""); split; intros; congruence.
Qed.

Lemma falsy_image o :
  AddEntryScreen.falsy o = false → ∃ t, o = Some t ∧ t ≠ "".
Proof.
  destruct o as [t |]; [| discriminate].
  intros Ht. exists t. split; [done | by apply falsy_Some].
Qed.

Section SaveEntry.
Context `{JSON}.
Import AddEntryScreen.

Lemma saveEntry_rejected now date s p :
  rejected_form s = true →
  saveEntry now date (s, p)
  = (inr (), (s, with_alerts
                   (alerts p ++ [("Missing Information",
                                  "Please fill in all fields and take a picture")])
                   p)).
Proof.
  unfold rejected_form. intros Hr. unfold saveEntry. async_unfold. simpl.
  by rewrite Hr.
Qed.

Lemma saveEntry_failed now date s p e :
  rejected_form s = false →
  faults p = [] →
  (stored_collection p = None ∧ e = SyntaxError
   ∨ ∃ v, stored_collection p = Some v ∧ spread_array v = inl e) →
  saveEntry now date (s, p)
  = (inr (), (setIsLoading false (setIsLoading true s),
              with_console (console p ++ [("Error saving entry:", e)])
                (with_alerts
                   (alerts p ++ [("Error", "Failed to save entry. Please try again.")])
                   p))).
Proof.
  unfold rejected_form, stored_collection. intros Hr Hf Hc.
  unfold saveEntry. async_unfold. simpl. rewrite Hr. simpl. rewrite Hf. simpl.
  destruct (truthy_text (storage p !! "travelEntries")) as [text |].
  - destruct Hc as [[-> ->] | (v & -> & Hv)]; simpl; [done |].
    by rewrite Hv.
  - destruct Hc as [[? _] | (v & [= <-] & Hv)]; discriminate.
Qed.

Lemma saveEntry_saved now date s p v existing :
  rejected_form s = false →
  faults p = [] →
  stored_collection p = Some v →
  spread_array v = inr existing →
  saveEntry now date (s, p)
  = (inr (),
     (setIsLoading false (setIsLoading true s),
      with_navigation (navigation p ++ ["Home"])
        (with_notifications
           (notifications p
              ++ [("Travel Entry Saved! 📸",
                   "Your entry " +:+ dquote +:+ title s +:+ dquote
                     +:+ " has been saved successfully!")])
           (with_storage
              (<["travelEntries" :=
                   JSON_stringify (JArray (existing ++ [newEntry now date s]))]>
                 (storage p))
              p)))).
Proof.
  unfold rejected_form, stored_collection. intros Hr Hf Hc Hv.
  unfold saveEntry. async_unfold. simpl. rewrite Hr. simpl. rewrite Hf. simpl.
  destruct (truthy_text (storage p !! "travelEntries")) as [text |].
  - rewrite Hc. simpl. rewrite Hv. simpl. by repeat (rewrite Hf; simpl).
  - injection Hc as <-. simpl in *. injection Hv as <-. simpl.
    by repeat (rewrite Hf; simpl).
Qed.

Lemma accepted_form s :
  falsy (image s) = false → trim (title s) ≠ "" → trim (description s) ≠ "" →
  rejected_form s = false.
Proof.
  intros Hi Ht Hd. unfold rejected_form. rewrite Hi. simpl.
  apply falsy_Some in Ht, Hd. by rewrite Ht, Hd.
Qed.

Lemma newEntry_required now date s :
  rejected_form s = false → required_fields (newEntry now date s) = true.
Proof.
  unfold rejected_form. intros Hr.
  apply orb_false_elim in Hr as [Hr Hd]. apply orb_false_elim in Hr as [Hi Ht].
  apply falsy_image in Hi as (t & Hi & Hne).
  apply falsy_Some in Ht, Hd.
  unfold required_fields, newEntry. simpl. rewrite Hi. simpl.
  pose proof (pretty_Z_nonempty now) as Hid.
  repeat match goal with
         | |- context [String.eqb ?a ""] =>
             destruct (String.eqb_spec a ""); [congruence |]
         end.
  reflexivity.
Qed.
End SaveEntry.

Section Saving.
Context `{JSON}.
Import AddEntryScreen.

(** C9. When the image is absent (or empty), or the title or the
    description is empty after trimming, [saveEntry] reports the
    validation alert and returns: no entry is built, no call to the
    store is made, nothing is written, and the form state is as it was. *)
Theorem saveEntry_incomplete_form now date s p :
  image s = None ∨ image s = Some "" ∨ trim (title s) = ""
  ∨ trim (description s) = "" →
  let r := saveEntry now date (s, p) in
  outcome r = inr ()
  ∧ state r = s
  ∧ storage (world r) = storage p
  ∧ faults (world r) = faults p
  ∧ alerts (world r)
    = (alerts p ++ [("Missing Information",
                     "Please fill in all fields and take a picture")])%list
  ∧ console (world r) = console p
  ∧ notifications (world r) = notifications p
  ∧ navigation (world r) = navigation p.
Proof.
  intros Hbad r. subst r. rewrite saveEntry_rejected; [done |].
  unfold rejected_form.
  destruct Hbad as [-> | [-> | [-> | ->]]]; simpl; try reflexivity.
  - by rewrite orb_true_r.
  - by rewrite !orb_true_r.
Qed.

(** C10, as the code has it. When the form passes validation and the
    collection key holds a non-empty text that does not deserialize,
    [saveEntry] shows the error alert, logs the failure and leaves the
    store as it was: the entry is not persisted, no notification is
    scheduled, the navigator is not called and the form fields are
    kept. *)
Theorem saveEntry_corrupt_text now date s p text :
  faults p = [] →
  falsy (image s) = false → trim (title s) ≠ "" → trim (description s) ≠ "" →
  storage p !! "travelEntries" = Some text →
  text ≠ "" →
  JSON_parse text = None →
  let r := saveEntry now date (s, p) in
  outcome r = inr ()
  ∧ storage (world r) = storage p
  ∧ alerts (world r)
    = (alerts p ++ [("Error", "Failed to save entry. Please try again.")])%list
  ∧ console (world r)
    = (console p ++ [("Error saving entry:", SyntaxError)])%list
  ∧ notifications (world r) = notifications p
  ∧ navigation (world r) = navigation p
  ∧ state r = setIsLoading false s.
Proof.
  intros Hf Hi Ht Hd Hs Hne Hp r. subst r.
  rewrite (saveEntry_failed now date s p SyntaxError);
    [done | by apply accepted_form | done |].
  left. split; [| done]. unfold stored_collection. rewrite Hs. simpl.
  by destruct (String.eqb_spec text "").
Qed.

(** C3, as the code has it. Let the form pass validation, so that the
    entry [e] built from it has a non-empty id, title, description and
    image; let the stored collection be missing, empty, or a list without
    [null] elements; and let the runtime read back the serialized updated
    list. Then [saveEntry] followed by [loadEntries] returns the stored
    records that pass the filter, followed by [e] itself, every field as
    it was built; [e] occurs exactly once when the stored list did not
    already hold a record equal to it. *)
Theorem saveEntry_then_loadEntries now date s home p items :
  faults p = [] →
  falsy (image s) = false → trim (title s) ≠ "" → trim (description s) ≠ "" →
  stored_collection p = Some (JArray items) →
  JNull ∉ items →
  let e := newEntry now date s in
  JSON_parse (JSON_stringify (JArray (items ++ [e]))) = Some (JArray (items ++ [e])) →
  let r1 := saveEntry now date (s, p) in
  let r2 := HomeScreen.loadEntries (home, world r1) in
  outcome r1 = inr ()
  ∧ outcome r2 = inr ()
  ∧ required_fields e = true
  ∧ HomeScreen.entries (state r2) = (List.filter required_fields items ++ [e])%list
  ∧ (e ∉ items → occurs_once e (HomeScreen.entries (state r2))).
Proof.
  intros Hf Hi Ht Hd Hc Hn e Hrt r1 r2.
  assert (Hacc : rejected_form s = false) by by apply accepted_form.
  assert (He : required_fields e = true) by by apply newEntry_required.
  pose proof (saveEntry_saved now date s p _ items Hacc Hf Hc eq_refl) as E1.
  fold e in E1.
  assert (E2 : HomeScreen.loadEntries (home, world r1)
               = (inr (),
                  (HomeScreen.setLoading false
                     (HomeScreen.setEntries
                        (List.filter required_fields items ++ [e])
                        (HomeScreen.setLoading true home)),
                   world r1))).
  { subst r1. rewrite E1. unfold world. cbn [snd].
    apply (loadEntries_appended home _ (JSON_stringify (JArray (items ++ [e]))));
      [done | apply lookup_insert_eq | exact Hrt | done | done]. }
  subst r2. rewrite E2. subst r1. rewrite E1.
  repeat split; try done.
  intros Hnot. exists (List.filter required_fields items), [].
  split; [done |]. split; [| apply not_elem_of_nil].
  intros Hin. by apply elem_of_filter_required in Hin as [Hin _].
Qed.
End Saving.

(** With the reference codec the proviso of C3 holds as soon as the stored
    records and the location of the form are canonical values. *)
Corollary saveEntry_then_loadEntries_codec now date s home p items :
  faults p = [] →
  rejected_form s = false →
  stored_collection p = Some (JArray items) →
  JNull ∉ items →
  Forall Codec.canonical items →
  Codec.canonical (AddEntryScreen.location s) →
  let e := AddEntryScreen.newEntry now date s in
  let r1 := AddEntryScreen.saveEntry now date (s, p) in
  let r2 := HomeScreen.loadEntries (home, world r1) in
  HomeScreen.entries (state r2) = (List.filter required_fields items ++ [e])%list.
Proof.
  intros Hf Hacc Hc Hn Hitems Hloc e r1 r2.
  assert (He : Codec.canonical e).
  { apply Codec.canonical_object; [reflexivity |].
    repeat (apply Forall_cons; split); try apply Forall_nil; simpl;
      try constructor; try assumption.
    destruct (AddEntryScreen.image s); constructor. }
  assert (Hrt : JSON_parse (JSON_stringify (JArray (items ++ [e])))
                = Some (JArray (items ++ [e]))).
  { apply parse_stringify. constructor. apply Forall_app. split; [done |].
    by apply Forall_singleton. }
  subst r2 r1.
  rewrite (saveEntry_saved now date s p _ items Hacc Hf Hc eq_refl).
  unfold world at 1. cbn [snd].
  rewrite (loadEntries_appended home _ (JSON_stringify (JArray (items ++ [e])))
             items e);
    [done | done | apply lookup_insert_eq | exact Hrt | done |].
  by apply newEntry_required.
Qed.

Lemma saveEntry_incomplete_form_witness :
  let p := Sample.device [("travelEntries", Codec.stringify (JArray [Sample.beach]))] in
  let r := AddEntryScreen.saveEntry Sample.now Sample.date (Sample.blank_form, p) in
  outcome r = inr ()
  ∧ state r = Sample.blank_form
  ∧ storage (world r) = storage p
  ∧ faults (world r) = []
  ∧ alerts (world r)
    = [("Missing Information", "Please fill in all fields and take a picture")]
  ∧ console (world r) = []
  ∧ notifications (world r) = []
  ∧ navigation (world r) = [].
Proof.
  intros p.
  apply (saveEntry_incomplete_form Sample.now Sample.date Sample.blank_form p).
  right. right. left. vm_compute. reflexivity.
Defined.

Lemma saveEntry_corrupt_text_witness :
  let p := Sample.device [("travelEntries", "[{")] in
  let r := AddEntryScreen.saveEntry Sample.now Sample.date (Sample.form, p) in
  outcome r = inr ()
  ∧ storage (world r) = storage p
  ∧ alerts (world r) = [("Error", "Failed to save entry. Please try again.")]
  ∧ console (world r) = [("Error saving entry:", SyntaxError)]
  ∧ notifications (world r) = []
  ∧ navigation (world r) = []
  ∧ state r = AddEntryScreen.setIsLoading false Sample.form.
Proof.
  intros p.
  apply (saveEntry_corrupt_text Sample.now Sample.date Sample.form p "[{");
    try (vm_compute; reflexivity); vm_compute; discriminate.
Defined.

(** C10 as stated fails on the empty text: it does not deserialize, yet
    [saveEntry] treats it as an empty collection and overwrites it. *)
Lemma saveEntry_empty_text_recovers :
  let p := Sample.device [("travelEntries", "")] in
  let r := AddEntryScreen.saveEntry Sample.now Sample.date (Sample.form, p) in
  faults p = []
  ∧ rejected_form Sample.form = false
  ∧ storage p !! "travelEntries" = Some ""
  ∧ JSON_parse "" = None
  ∧ alerts (world r) = []
  ∧ storage (world r) !! "travelEntries"
    = Some (JSON_stringify
              (JArray [AddEntryScreen.newEntry Sample.now Sample.date Sample.form]))
  ∧ ¬ (alerts (world r) ≠ alerts p
       ∧ storage (world r) !! "travelEntries" = storage p !! "travelEntries").
Proof.
  repeat split; try (vm_compute; reflexivity).
  intros [Ha _]. apply Ha. vm_compute. reflexivity.
Qed.

Lemma saveEntry_then_loadEntries_witness :
  let p := Sample.device
             [("travelEntries",
               Codec.stringify (JArray [Sample.beach; Sample.untitled]))] in
  let e := AddEntryScreen.newEntry Sample.now Sample.date Sample.form in
  let r1 := AddEntryScreen.saveEntry Sample.now Sample.date (Sample.form, p) in
  let r2 := HomeScreen.loadEntries (HomeScreen.mount, world r1) in
  HomeScreen.entries (state r2) = [Sample.beach; e]
  ∧ occurs_once e (HomeScreen.entries (state r2)).
Proof.
  intros p e r1 r2.
  destruct (saveEntry_then_loadEntries Sample.now Sample.date Sample.form
              HomeScreen.mount p [Sample.beach; Sample.untitled])
    as (_ & _ & _ & Hentries & Honce).
  - reflexivity.
  - reflexivity.
  - vm_compute. discriminate.
  - vm_compute. discriminate.
  - vm_compute. reflexivity.
  - intros Hin.
    repeat (apply elem_of_cons in Hin as [Hin | Hin]; [discriminate |]).
    by apply elem_of_nil in Hin.
  - vm_compute. reflexivity.
  - split; [exact Hentries |]. apply Honce. intros Hin.
    repeat (apply elem_of_cons in Hin as [Hin | Hin]; [discriminate |]).
    by apply elem_of_nil in Hin.
Defined.

(** C3 as stated fails: a stored list with a [null] element parses, the
    entry is appended and written, and the next [loadEntries] returns
    nothing. *)
Lemma saveEntry_then_loadEntries_null_element :
  let p := Sample.device [("travelEntries", "[null]")] in
  let e := AddEntryScreen.newEntry Sample.now Sample.date Sample.form in
  let r1 := AddEntryScreen.saveEntry Sample.now Sample.date (Sample.form, p) in
  let r2 := HomeScreen.loadEntries (HomeScreen.mount, world r1) in
  faults p = []
  ∧ required_fields e = true
  ∧ JSON_parse "[null]" = Some (JArray [JNull])
  ∧ storage (world r1) !! "travelEntries" = Some (JSON_stringify (JArray [JNull; e]))
  ∧ HomeScreen.entries (state r2) = []
  ∧ ¬ occurs_once e (HomeScreen.entries (state r2)).
Proof.
  repeat split; try (vm_compute; reflexivity).
  intros (l1 & l2 & Heq & _). vm_compute in Heq. by destruct l1.
Qed.

(** The same claim fails when the stored text parses to something that is
    not a list: the spread throws and nothing is saved. *)
Example saveEntry_then_loadEntries_not_a_list :
  let p := Sample.device [("travelEntries", "{}")] in
  let r1 := AddEntryScreen.saveEntry Sample.now Sample.date (Sample.form, p) in
  let r2 := HomeScreen.loadEntries (HomeScreen.mount, world r1) in
  JSON_parse "{}" = Some (JObject [])
  ∧ storage (world r1) = storage p
  ∧ console (world r1) = [("Error saving entry:", TypeError)]
  ∧ HomeScreen.entries (state r2) = [].
Proof. repeat split; vm_compute; reflexivity. Qed.

(** And when the stored list already holds a record equal to the new
    entry, the entry is returned twice. *)
Example saveEntry_then_loadEntries_twice :
  let e := AddEntryScreen.newEntry Sample.now Sample.date Sample.form in
  let p := Sample.device [("travelEntries", Codec.stringify (JArray [e]))] in
  let r1 := AddEntryScreen.saveEntry Sample.now Sample.date (Sample.form, p) in
  let r2 := HomeScreen.loadEntries (HomeScreen.mount, world r1) in
  HomeScreen.entries (state r2) = [e; e].
Proof. vm_compute. reflexivity. Qed.

(** ** The entry repository: removing *)

Lemma other_entry_keeps id entry :
  entry ≠ JNull → HomeScreen.other_entry id entry = inr (keeps id entry).
Proof. intros Hn. by destruct entry. Qed.

Lemma filter_items_other id items :
  JNull ∉ items →
  filter_items (HomeScreen.other_entry id) items = inr (List.filter (keeps id) items).
Proof.
  induction items as [| x xs IH]; intros Hn; [reflexivity |].
  apply not_elem_of_cons in Hn as [Hx Hxs]. simpl.
  rewrite other_entry_keeps by congruence. simpl.
  rewrite IH by assumption. simpl. by destruct (keeps id x).
Qed.

Lemma filter_items_other_null id items :
  JNull ∈ items → filter_items (HomeScreen.other_entry id) items = inl TypeError.
Proof.
  induction items as [| x xs IH]; intros Hin; [by apply elem_of_nil in Hin |].
  simpl. destruct x; try reflexivity;
    (apply elem_of_cons in Hin as [Hin | Hin]; [discriminate |]);
    rewrite IH by assumption; reflexivity.
Qed.

Lemma null_elem_dec (items : list JValue) : JNull ∈ items ∨ JNull ∉ items.
Proof.
  induction items as [| x xs [IH | IH]].
  - right. apply not_elem_of_nil.
  - left. by right.
  - destruct x; try (right; apply not_elem_of_cons; split; [discriminate | done]).
    left. by left.
Qed.

Lemma filter_filter (f : JValue → bool) items :
  List.filter f (List.filter f items) = List.filter f items.
Proof.
  induction items as [| x xs IH]; [reflexivity |]. simpl.
  destruct (f x) eqn:Hx; simpl; [rewrite Hx |]; by rewrite ?IH.
Qed.

Lemma filter_all (f : JValue → bool) items :
  (∀ e, e ∈ items → f e = true) → List.filter f items = items.
Proof.
  induction items as [| x xs IH]; intros Hall; [reflexivity |]. simpl.
  rewrite (Hall x) by by left. f_equal. apply IH. intros e He. apply Hall. by right.
Qed.

Lemma keeps_other id entry :
  own_property entry "id" ≠ Some (JString id) → keeps id entry = true.
Proof.
  unfold keeps, strict_equals. intros Hne.
  destruct (own_property entry "id") as [[| | | s' | |] |]; try reflexivity.
  destruct (String.eqb_spec s' id); [congruence | reflexivity].
Qed.

Section Remove.
Context `{JSON}.
Import HomeScreen.

Lemma removeEntry_deleted id s p :
  faults p = [] →
  removeEntry id Delete (s, p)
  = match filter_items (other_entry id) (entries s) with
    | inr kept =>
        (inr (),
         (setEntries kept s,
          with_storage
            (<["travelEntries" := JSON_stringify (JArray kept)]> (storage p))
            (with_alerts (alerts p ++ [confirmation]) p)))
    | inl e =>
        (inr (),
         (s, with_alerts (alerts p ++ [confirmation; removal_failure])
               (with_console (console p ++ [("Error removing entry:", e)]) p)))
    end.
Proof.
  intros Hf. unfold removeEntry. async_unfold. simpl.
  destruct (filter_items (other_entry id) (entries s)); simpl.
  - unfold with_alerts, with_console. simpl. by rewrite <- app_assoc.
  - by rewrite Hf.
Qed.

Lemma removeEntry_cancelled id s p :
  removeEntry id Cancel (s, p)
  = (inr (), (s, with_alerts (alerts p ++ [confirmation]) p)).
Proof. reflexivity. Qed.

(** C4. Deleting the same id twice in succession yields the same
    sequence and the same stored text both times, and neither call
    raises. When the sequence holds records only (no [null]), each call
    writes back the filtered sequence, nothing is logged and only the
    two confirmation dialogs are shown; and an id that no record carries
    leaves the sequence as it was. *)
Theorem removeEntry_twice id s p :
  faults p = [] →
  let r1 := removeEntry id Delete (s, p) in
  let r2 := removeEntry id Delete (state r1, world r1) in
  outcome r1 = inr () ∧ outcome r2 = inr ()
  ∧ entries (state r2) = entries (state r1)
  ∧ storage (world r2) = storage (world r1)
  ∧ (JNull ∉ entries s →
       entries (state r1) = List.filter (keeps id) (entries s)
       ∧ storage (world r1) !! "travelEntries"
         = Some (JSON_stringify (JArray (entries (state r1))))
       ∧ console (world r2) = console p
       ∧ alerts (world r2) = (alerts p ++ [confirmation; confirmation])%list
       ∧ ((∀ e, e ∈ entries s → own_property e "id" ≠ Some (JString id)) →
            entries (state r1) = entries s)).
Proof.
  intros Hf r1 r2.
  destruct (null_elem_dec (entries s)) as [Hnull | Hnull].
  - assert (E1 : r1 = (inr (),
                (s, with_alerts (alerts p ++ [confirmation; removal_failure])
                      (with_console
                         (console p ++ [("Error removing entry:", TypeError)]) p)))).
    { subst r1. rewrite removeEntry_deleted by done.
      by rewrite filter_items_other_null. }
    subst r2. rewrite E1. unfold state, world. simpl.
    rewrite removeEntry_deleted by done.
    rewrite filter_items_other_null by done. simpl.
    repeat split; try done.
  - assert (E1 : r1 = (inr (),
                (setEntries (List.filter (keeps id) (entries s)) s,
                 with_storage
                   (<["travelEntries" :=
                        JSON_stringify (JArray (List.filter (keeps id) (entries s)))]>
                      (storage p))
                   (with_alerts (alerts p ++ [confirmation]) p)))).
    { subst r1. rewrite removeEntry_deleted by done.
      by rewrite filter_items_other. }
    assert (Hkept : JNull ∉ List.filter (keeps id) (entries s)).
    { intros Hin. apply list_elem_of_In, filter_In in Hin as [Hin _].
      by apply list_elem_of_In in Hin. }
    subst r2. rewrite E1. unfold state, world. simpl.
    rewrite removeEntry_deleted by done. simpl.
    rewrite filter_items_other by done. rewrite filter_filter. simpl.
    rewrite insert_insert_eq.
    repeat split; try done.
    + by rewrite lookup_insert_eq.
    + by rewrite <- app_assoc.
    + intros Hall. apply filter_all. intros e He. by apply keeps_other, Hall.
Qed.
End Remove.

(** Scenario C, twice: two entries, the first one removed. *)
Lemma removeEntry_twice_witness :
  let p := Sample.device
             [("travelEntries", Codec.stringify (JArray [Sample.beach; Sample.harbour]))] in
  let r1 := HomeScreen.removeEntry "1" HomeScreen.Delete (Sample.home, p) in
  let r2 := HomeScreen.removeEntry "1" HomeScreen.Delete (state r1, world r1) in
  HomeScreen.entries (state r1) = [Sample.harbour]
  ∧ HomeScreen.entries (state r2) = [Sample.harbour]
  ∧ storage (world r2) = storage (world r1)
  ∧ console (world r2) = []
  ∧ alerts (world r2) = [confirmation; confirmation].
Proof.
  intros p r1 r2.
  destruct (removeEntry_twice "1" Sample.home p eq_refl)
    as (_ & _ & H2 & Hst & Hrec).
  destruct Hrec as (H1 & _ & Hc & Ha & _).
  { intros Hin.
    repeat (apply elem_of_cons in Hin as [Hin | Hin]; [discriminate |]).
    by apply elem_of_nil in Hin. }
  fold r1 in H1, H2, Hst. fold r2 in H2, Hst, Hc, Ha.
  repeat split; assumption.
Defined.

(** ** The interaction overlays: toggling *)

Lemma assoc_obj_replace_eq k x props :
  is_Some (assoc k props) → assoc k (obj_replace k x props) = Some x.
Proof.
  induction props as [| [k' v] ps IH]; simpl; intros Hs.
  - by destruct Hs.
  - destruct (decide (k' = k)) as [-> | Hne]; simpl.
    + by rewrite decide_True.
    + rewrite decide_False by done. by apply IH.
Qed.

Lemma assoc_obj_replace_ne k k' x props :
  k' ≠ k → assoc k' (obj_replace k x props) = assoc k' props.
Proof.
  intros Hne. induction props as [| [k0 v] ps IH]; simpl; [done |].
  destruct (decide (k0 = k)) as [-> | Hk]; simpl.
  - by rewrite !decide_False by done.
  - destruct (decide (k0 = k')); [done | apply IH].
Qed.

Lemma assoc_obj_insert_index_eq n k x props :
  assoc k props = None → assoc k (obj_insert_index n k x props) = Some x.
Proof.
  induction props as [| [k' v] ps IH]; simpl; intros Hs.
  - by rewrite decide_True.
  - destruct (decide (k' = k)) as [-> | Hne]; [discriminate |].
    destruct (array_index k') as [m |]; [destruct (decide (m < n)%nat) |]; simpl.
    + rewrite decide_False by done. by apply IH.
    + by rewrite decide_True.
    + by rewrite decide_True.
Qed.

Lemma assoc_obj_insert_index_ne n k k' x props :
  k' ≠ k → assoc k' (obj_insert_index n k x props) = assoc k' props.
Proof.
  intros Hne. induction props as [| [k0 v] ps IH]; simpl.
  - by rewrite decide_False by done.
  - destruct (array_index k0) as [m |]; [destruct (decide (m < n)%nat) |]; simpl.
    + destruct (decide (k0 = k')); [done | apply IH].
    + by rewrite (decide_False (P := k = k')) by done.
    + by rewrite (decide_False (P := k = k')) by done.
Qed.

Lemma assoc_app k props props' :
  assoc k (props ++ props')
  = match assoc k props with
    | Some v => Some v
    | None => assoc k props'
    end.
Proof.
  induction props as [| [k' v] ps IH]; simpl; [done |].
  by destruct (decide (k' = k)).
Qed.

Lemma assoc_obj_set_eq k x props : assoc k (obj_set k x props) = Some x.
Proof.
  unfold obj_set. destruct (assoc k props) as [v |] eqn:Hk.
  - apply assoc_obj_replace_eq. by rewrite Hk.
  - destruct (array_index k); [by apply assoc_obj_insert_index_eq |].
    rewrite assoc_app, Hk. simpl. by rewrite decide_True.
Qed.

Lemma assoc_obj_set_ne k k' x props :
  k' ≠ k → assoc k' (obj_set k x props) = assoc k' props.
Proof.
  intros Hne. unfold obj_set. destruct (assoc k props) as [v |].
  - by apply assoc_obj_replace_ne.
  - destruct (array_index k); [by apply assoc_obj_insert_index_ne |].
    rewrite assoc_app. destruct (assoc k' props); [done |]. simpl.
    by rewrite decide_False by done.
Qed.

Lemma named_false k names : k ∉ names → named k names = false.
Proof.
  unfold named. induction names as [| n ns IH]; intros Hk; [done |].
  apply not_elem_of_cons in Hk as [Hne Hk]. simpl.
  destruct (String.eqb_spec k n); [done |]. by apply IH.
Qed.

(** No name read with [member] is a member of a built-in prototype, so
    that an own-property read is what the source computes there. *)
Lemma fixed_names_not_inherited v k : k ∈ fixed_names → inherited v k = false.
Proof.
  intros Hk.
  repeat (apply elem_of_cons in Hk as [-> | Hk]; [by destruct v |]).
  by apply elem_of_nil in Hk.
Qed.

Lemma toggled_object props id :
  id ∉ Object_prototype →
  HomeScreen.toggled (JObject props) id
  = inr (JObject (obj_set id (JBool (negb (truthy (assoc id props)))) props)).
Proof.
  intros Hid. unfold HomeScreen.toggled, truthy_member, inherited.
  rewrite (named_false _ _ Hid). simpl. by destruct (assoc id props).
Qed.

Lemma posts_setPosts type v s :
  HomeScreen.posts type (HomeScreen.setPosts type v s) = v.
Proof. by destruct type. Qed.

Lemma posts_setPosts_ne type type' v s :
  type ≠ type' →
  HomeScreen.posts type' (HomeScreen.setPosts type v s) = HomeScreen.posts type' s.
Proof. by destruct type, type'. Qed.

Section Toggle.
Context `{JSON}.
Import HomeScreen.

(** The state after a toggle does not depend on the store: the overlay
    is updated before the write. *)
Lemma toggleAction_state id type s p :
  outcome (toggleAction id type (s, p)) = inr ()
  ∧ state (toggleAction id type (s, p))
    = match toggled (posts type s) id with
      | inr newState => setPosts type newState s
      | inl _ => s
      end.
Proof.
  unfold toggleAction. async_unfold.
  destruct type; simpl;
    match goal with |- context [toggled ?v id] => destruct (toggled v id) end;
    simpl; destruct (faults p) as [| [] fs]; done.
Qed.

Lemma toggleAction_storage id type s p :
  storage (world (toggleAction id type (s, p))) = storage p
  ∨ ∃ text, storage (world (toggleAction id type (s, p)))
            = <[storageKey type := text]> (storage p).
Proof.
  unfold toggleAction. async_unfold.
  destruct type; simpl;
    match goal with |- context [toggled ?v id] => destruct (toggled v id) end;
    simpl; destruct (faults p) as [| [] fs]; simpl; eauto.
Qed.

Lemma toggleAction_persisted id type s p newState :
  faults p = [] →
  toggled (posts type s) id = inr newState →
  world (toggleAction id type (s, p))
  = with_storage (<[storageKey type := JSON_stringify newState]> (storage p)) p.
Proof.
  intros Hf Ht. unfold toggleAction. async_unfold.
  destruct type; simpl in *; rewrite Ht; simpl; by rewrite Hf.
Qed.

(** C5, as the code has it. On an overlay that is a mapping, and for an
    id that names no member of [Object.prototype], toggling flips the
    flag of the id, where an absent key counts as false: a first toggle
    of an absent key stores [true], and two toggles in sequence give the
    flag back its original value (a stored boolean becomes that boolean
    again). Every other id is as it was after each toggle. No call
    raises, whatever the store does; when the store accepts the writes,
    the text stored under the key of the kind after each toggle is the
    serialized overlay that toggle left in memory. *)
Theorem toggleAction_twice id type s p props :
  posts type s = JObject props →
  id ∉ Object_prototype →
  let flag (st : State) := truthy (own_property (posts type st) id) in
  let r1 := toggleAction id type (s, p) in
  let r2 := toggleAction id type (state r1, world r1) in
  outcome r1 = inr () ∧ outcome r2 = inr ()
  ∧ flag (state r1) = negb (flag s)
  ∧ flag (state r2) = flag s
  ∧ (assoc id props = None →
       own_property (posts type (state r1)) id = Some (JBool true))
  ∧ (∀ b, assoc id props = Some (JBool b) →
       own_property (posts type (state r2)) id = Some (JBool b))
  ∧ (∀ id', id' ≠ id →
       own_property (posts type (state r1)) id' = assoc id' props
       ∧ own_property (posts type (state r2)) id' = assoc id' props)
  ∧ (faults p = [] →
       storage (world r1) !! storageKey type
       = Some (JSON_stringify (posts type (state r1)))
       ∧ storage (world r2) !! storageKey type
         = Some (JSON_stringify (posts type (state r2)))).
Proof.
  intros Hp Hid flag r1 r2.
  destruct (toggleAction_state id type s p) as [Ho1 Hs1].
  rewrite Hp, toggled_object in Hs1 by done.
  set (once := obj_set id (JBool (negb (truthy (assoc id props)))) props) in Hs1.
  destruct (toggleAction_state id type (state r1) (world r1)) as [Ho2 Hs2].
  fold r1 in Ho1, Hs1. fold r2 in Ho2, Hs2.
  rewrite Hs1, posts_setPosts, toggled_object in Hs2 by done.
  assert (Hone : assoc id once = Some (JBool (negb (truthy (assoc id props)))))
    by apply assoc_obj_set_eq.
  rewrite Hone in Hs2. simpl in Hs2. rewrite negb_involutive in Hs2.
  subst flag. simpl. rewrite Hs1, Hs2, Hp, !posts_setPosts. simpl.
  rewrite assoc_obj_set_eq, Hone. simpl.
  repeat split; try done.
  - by intros ->.
  - by intros b ->.
  - subst once. by rewrite assoc_obj_set_ne by done.
  - subst once. by rewrite !assoc_obj_set_ne by done.
  - subst r1. erewrite toggleAction_persisted; [| done | by rewrite Hp, toggled_object].
    simpl. by rewrite lookup_insert_eq.
  - assert (Hw1 : world r1
                  = with_storage
                      (<[storageKey type := JSON_stringify (JObject once)]>
                         (storage p)) p).
    { subst r1. apply toggleAction_persisted; [done |].
      by rewrite Hp, toggled_object. }
    subst r2. erewrite toggleAction_persisted.
    + simpl. rewrite lookup_insert_eq. reflexivity.
    + by rewrite Hw1.
    + rewrite Hs1, posts_setPosts, toggled_object, Hone by done. simpl.
      by rewrite negb_involutive.
Qed.

(** C6. For two distinct kinds, toggling the first leaves the text stored
    under the key of the second, and the overlay of the second held in
    memory, unchanged; the stored collection is untouched as well. *)
Theorem toggleAction_other_kind id k1 k2 s p :
  k1 ≠ k2 →
  let r := toggleAction id k1 (s, p) in
  storage (world r) !! storageKey k2 = storage p !! storageKey k2
  ∧ posts k2 (state r) = posts k2 s
  ∧ storage (world r) !! "travelEntries" = storage p !! "travelEntries".
Proof.
  intros Hne r. subst r.
  destruct (toggleAction_state id k1 s p) as [_ ->].
  split; [| split].
  - destruct (toggleAction_storage id k1 s p) as [-> | [text ->]]; [done |].
    apply lookup_insert_ne. by destruct k1, k2.
  - destruct (toggled (posts k1 s) id); [done |]. by apply posts_setPosts_ne.
  - destruct (toggleAction_storage id k1 s p) as [-> | [text ->]]; [done |].
    apply lookup_insert_ne. by destruct k1.
Qed.
End Toggle.

(** Scenario D: an empty overlay, toggled twice at id 1. *)
Lemma toggleAction_twice_witness :
  let r1 := HomeScreen.toggleAction "1" HomeScreen.like
              (HomeScreen.mount, Sample.device []) in
  let r2 := HomeScreen.toggleAction "1" HomeScreen.like (state r1, world r1) in
  own_property (HomeScreen.likedPosts (state r1)) "1" = Some (JBool true)
  ∧ truthy (own_property (HomeScreen.likedPosts (state r2)) "1") = false
  ∧ storage (world r1) !! "likedPosts"
    = Some (JSON_stringify (JObject [("1", JBool true)]))
  ∧ storage (world r2) !! "likedPosts"
    = Some (JSON_stringify (JObject [("1", JBool false)])).
Proof.
  intros r1 r2.
  destruct (toggleAction_twice "1" HomeScreen.like HomeScreen.mount
              (Sample.device []) [] eq_refl)
    as (_ & _ & _ & H2 & H1 & _ & _ & Hst).
  - intros Hin.
    repeat (apply elem_of_cons in Hin as [Hin | Hin]; [discriminate |]).
    by apply elem_of_nil in Hin.
  - split; [exact (H1 eq_refl) |]. split; [exact H2 |]. exact (Hst eq_refl).
Defined.

(** C5 as stated fails at an id that names a member of
    [Object.prototype]. On the empty overlay the key [constructor] is
    absent, yet [likedPosts[id]] reads the inherited constructor, which
    is truthy: the first toggle stores [false], not [true], and the
    second one leaves [true] where the key was absent. *)
Lemma toggleAction_twice_inherited_member :
  let r1 := HomeScreen.toggleAction "constructor" HomeScreen.like
              (HomeScreen.mount, Sample.device []) in
  let r2 := HomeScreen.toggleAction "constructor" HomeScreen.like
              (state r1, world r1) in
  HomeScreen.likedPosts HomeScreen.mount = JObject []
  ∧ own_property (JObject []) "constructor" = None
  ∧ HomeScreen.likedPosts (state r1) = JObject [("constructor", JBool false)]
  ∧ HomeScreen.likedPosts (state r2) = JObject [("constructor", JBool true)]
  ∧ ¬ (own_property (HomeScreen.likedPosts (state r1)) "constructor"
       = Some (JBool true)).
Proof.
  split; [reflexivity |]. split; [reflexivity |]. split; [reflexivity |].
  split; [reflexivity |]. intros Hw. vm_compute in Hw. discriminate.
Qed.

Example toggleAction_scenario_D :
  let r1 := HomeScreen.toggleAction "1" HomeScreen.like
              (HomeScreen.mount, Sample.device []) in
  let r2 := HomeScreen.toggleAction "1" HomeScreen.like (state r1, world r1) in
  HomeScreen.likedPosts (state r1) = JObject [("1", JBool true)]
  ∧ HomeScreen.likedPosts (state r2) = JObject [("1", JBool false)].
Proof. split; reflexivity. Qed.

Lemma toggleAction_other_kind_witness :
  let p := Sample.device [("savedPosts", Codec.stringify Sample.flags)] in
  let r := HomeScreen.toggleAction "1" HomeScreen.like (Sample.home, p) in
  storage (world r) !! "savedPosts" = Some (Codec.stringify Sample.flags)
  ∧ HomeScreen.savedPosts (state r) = JObject []
  ∧ storage (world r) !! "travelEntries" = None.
Proof.
  intros p.
  apply (toggleAction_other_kind "1" HomeScreen.like HomeScreen.save Sample.home p).
  discriminate.
Defined.

(** ** The interaction overlays: loading *)

Section LoadOverlays.
Context `{JSON}.
Import HomeScreen.

Lemma loadActionStates_restore_all s p :
  faults p = [] →
  loadActionStates (s, p)
  = (inr (),
     ((restore_all restore_order p s).1,
      match (restore_all restore_order p s).2 with
      | None => p
      | Some e =>
          with_console (console p ++ [("Error loading action states:", e)]) p
      end)).
Proof.
  intros Hf. unfold loadActionStates, restore, restore_order. async_unfold. simpl.
  repeat (rewrite Hf; simpl). unfold readback.
  repeat (match goal with
          | |- context [truthy_text ?t] => destruct (truthy_text t)
          | |- context [JSON_parse ?t] => destruct (JSON_parse t)
          end; simpl; try reflexivity).
Qed.

Lemma restore_all_app ks1 ks2 p s :
  restore_all (ks1 ++ ks2) p s
  = match restore_all ks1 p s with
    | (s1, None) => restore_all ks2 p s1
    | (s1, Some e) => (s1, Some e)
    end.
Proof.
  revert s. induction ks1 as [| k ks IH]; intros s; simpl; [done |].
  destruct (readback (storage p !! storageKey k)) as [e | [v |]]; by rewrite ?IH.
Qed.

(** Restoring other kinds does not touch the overlay of [k]. *)
Lemma restore_all_other k ks p s :
  k ∉ ks → posts k (restore_all ks p s).1 = posts k s.
Proof.
  revert s. induction ks as [| k' ks IH]; intros s Hk; simpl; [done |].
  apply not_elem_of_cons in Hk as [Hne Hk].
  destruct (readback (storage p !! storageKey k')) as [e | [v |]]; simpl.
  - done.
  - rewrite IH by done. by apply posts_setPosts_ne.
  - by apply IH.
Qed.

(** Restoring depends on the texts of the restored kinds only. *)
Lemma restore_all_agree ks p p' s :
  (∀ k, k ∈ ks → storage p' !! storageKey k = storage p !! storageKey k) →
  restore_all ks p' s = restore_all ks p s.
Proof.
  revert s. induction ks as [| k ks IH]; intros s Hagree; simpl; [done |].
  rewrite (Hagree k) by by left.
  destruct (readback (storage p !! storageKey k)) as [e | [v |]]; [done | |];
    apply IH; intros k' Hk'; apply Hagree; by right.
Qed.

(** The order, split after kind [k]. *)
Lemma restore_order_split k :
  restore_order = (take (S (rank k)) restore_order
                     ++ drop (S (rank k)) restore_order)%list
  ∧ (k ∉ drop (S (rank k)) restore_order)
  ∧ (∀ k', k' ∈ take (S (rank k)) restore_order → rank k' ≤ rank k)%nat
  ∧ take (S (rank k)) restore_order = (take (rank k) restore_order ++ [k])%list
  ∧ (k ∉ take (rank k) restore_order).
Proof.
  split; [by rewrite take_drop |].
  destruct k; simpl; repeat split;
    try (intros Hin;
         repeat (apply elem_of_cons in Hin as [Hin | Hin]; [discriminate |]);
         by apply elem_of_nil in Hin);
    intros k' Hin;
    repeat (apply elem_of_cons in Hin as [-> | Hin]; [simpl; lia |]);
    by apply elem_of_nil in Hin.
Qed.

Lemma restore_all_upto k p s :
  posts k (restore_all restore_order p s).1
  = posts k (restore_all (take (S (rank k)) restore_order) p s).1.
Proof.
  destruct (restore_order_split k) as (Hsplit & Hlater & _).
  rewrite Hsplit at 1. rewrite restore_all_app.
  destruct (restore_all (take (S (rank k)) restore_order) p s) as [s1 [e |]];
    [done |].
  by apply restore_all_other.
Qed.

End LoadOverlays.



(** ** The scenarios of the entry repository, on the reference codec *)

(** Scenario B: one entry appended to an empty store, then loaded. *)
Example scenario_B :
  let s := AddEntryScreen.mkState (Some "file://a.jpg") JNull "" "Beach" "Nice" false in
  let r1 := AddEntryScreen.saveEntry 1 Sample.date (s, Sample.device []) in
  let r2 := HomeScreen.loadEntries (HomeScreen.mount, world r1) in
  storage (world r1) !! "travelEntries"
  = Some (Codec.stringify (JArray [AddEntryScreen.newEntry 1 Sample.date s]))
  ∧ HomeScreen.entries (state r2) = [AddEntryScreen.newEntry 1 Sample.date s]
  ∧ own_property (AddEntryScreen.newEntry 1 Sample.date s) "id" = Some (JString "1")
  ∧ navigation (world r1) = ["Home"].
Proof. repeat split; vm_compute; reflexivity. Qed.

(** Scenario C: two entries, the first removed, then loaded again. *)
Example scenario_C :
  let p := Sample.device
             [("travelEntries", Codec.stringify (JArray [Sample.beach; Sample.harbour]))] in
  let r1 := HomeScreen.removeEntry "1" HomeScreen.Delete (Sample.home, p) in
  let r2 := HomeScreen.loadEntries (HomeScreen.mount, world r1) in
  HomeScreen.entries (state r1) = [Sample.harbour]
  ∧ HomeScreen.entries (state r2) = [Sample.harbour].
Proof. split; vm_compute; reflexivity. Qed.

(** Cancelling the dialog leaves the entries and the store alone. *)
Example removeEntry_cancel :
  let p := Sample.device
             [("travelEntries", Codec.stringify (JArray [Sample.beach; Sample.harbour]))] in
  let r := HomeScreen.removeEntry "1" HomeScreen.Cancel (Sample.home, p) in
  state r = Sample.home ∧ storage (world r) = storage p.
Proof. split; reflexivity. Qed.

(** A store that rejects the read: [loadEntries] keeps the entries it had
    and reports the failure. *)
Example loadEntries_rejected_read :
  let p := with_faults [true] (Sample.device []) in
  let r := HomeScreen.loadEntries (Sample.home, p) in
  outcome r = inr ()
  ∧ HomeScreen.entries (state r) = [Sample.beach; Sample.harbour]
  ∧ HomeScreen.loading (state r) = false
  ∧ alerts (world r) = [("Error", "Failed to load entries")]
  ∧ console (world r) = [("Error loading entries:", Rejected)].
Proof. repeat split; reflexivity. Qed.

(** A store that rejects the write of a toggle: the overlay in memory is
    flipped all the same, and the store keeps what it had. *)
Example toggleAction_rejected_write :
  let p := with_faults [true] (Sample.device []) in
  let r := HomeScreen.toggleAction "1" HomeScreen.like (HomeScreen.mount, p) in
  outcome r = inr ()
  ∧ HomeScreen.likedPosts (state r) = JObject [("1", JBool true)]
  ∧ storage (world r) !! "likedPosts" = None
  ∧ console (world r) = [("Error toggling action:", Rejected)].
Proof. repeat split; reflexivity. Qed.

(** A notification that cannot be scheduled: the entry is in the store
    already when the failure alert is shown. *)
Example saveEntry_rejected_notification :
  let p := with_faults [false; false; true] (Sample.device []) in
  let r := AddEntryScreen.saveEntry Sample.now Sample.date (Sample.form, p) in
  storage (world r) !! "travelEntries"
  = Some (Codec.stringify
            (JArray [AddEntryScreen.newEntry Sample.now Sample.date Sample.form]))
  ∧ alerts (world r) = [("Error", "Failed to save entry. Please try again.")]
  ∧ navigation (world r) = [].
Proof. repeat split; vm_compute; reflexivity. Qed.

(** ** Frames: what a handler leaves alone *)

Section Frame.
Context {St X : Type} (π : St * Platform → X).

Lemma preserves_mret {A} (x : A) : preserves π (mret x : Async St A).
Proof. by intros σ. Qed.

Lemma preserves_throw {A} (e : Exn) : preserves π (throw e : Async St A).
Proof. by intros σ. Qed.

Lemma preserves_liftR {A} (r : Result A) : preserves π (liftR r : Async St A).
Proof. by intros σ. Qed.

Lemma preserves_getState : preserves π (getState : Async St St).
Proof. by intros σ. Qed.

Lemma preserves_inspect {A} (f : Platform → A) :
  preserves π (inspect f : Async St A).
Proof. by intros σ. Qed.

Lemma preserves_mbind {A B} (m : Async St A) (f : A → Async St B) :
  preserves π m → (∀ x, preserves π (f x)) → preserves π (m ≫= f).
Proof.
  intros Hm Hf σ. unfold mbind, Async_bind. specialize (Hm σ).
  destruct (m σ) as [[e | x] σ']; [done |]. simpl in Hm.
  by rewrite Hf.
Qed.

Lemma preserves_try_catch {A} (m : Async St A) (h : Exn → Async St A) :
  preserves π m → (∀ e, preserves π (h e)) → preserves π (try_catch m h).
Proof.
  intros Hm Hh σ. unfold try_catch. specialize (Hm σ).
  destruct (m σ) as [[e | x] σ']; [| done]. simpl in Hm.
  by rewrite Hh.
Qed.

Lemma preserves_try_finally {A} (m : Async St A) (f : Async St unit) :
  preserves π m → preserves π f → preserves π (try_finally m f).
Proof.
  intros Hm Hf σ. unfold try_finally. specialize (Hm σ).
  destruct (m σ) as [r σ']. specialize (Hf σ').
  destruct (f σ') as [[e | x] σ'']; simpl in *; congruence.
Qed.

Lemma preserves_fire (m : Async St unit) : preserves π m → preserves π (fire m).
Proof. intros Hm σ. apply Hm. Qed.

Lemma preserves_Promise_all {A} (ps : list (Async St A)) :
  Forall (preserves π) ps → preserves π (Promise_all ps).
Proof.
  induction ps as [| p ps IH]; intros Hall σ; [done |].
  apply Forall_cons in Hall as [Hp Hps]. simpl. specialize (Hp σ).
  destruct (p σ) as [r σ']. specialize (IH Hps σ').
  destruct (Promise_all ps σ') as [rs σ'']. simpl in *. congruence.
Qed.

Lemma preserves_setState (f : St → St) :
  (∀ s p, π (f s, p) = π (s, p)) → preserves π (setState f).
Proof. intros Hf [s p]. apply Hf. Qed.

Lemma preserves_platform (f : Platform → Platform) :
  (∀ s p, π (s, f p) = π (s, p)) → preserves π (platform f : Async St unit).
Proof. intros Hf [s p]. apply Hf. Qed.

Lemma preserves_platform_call :
  (∀ s p fs, π (s, with_faults fs p) = π (s, p)) →
  preserves π (platform_call : Async St unit).
Proof.
  intros Hf [s p]. unfold platform_call. simpl.
  destruct (faults p) as [| [] fs]; simpl; auto.
Qed.
End Frame.

(** Walks through a handler, leaving the state updates and the platform
    calls to [leaf]. *)
Ltac preserves_step leaf :=
  lazymatch goal with
  | |- preserves _ (_ ≫= _) => apply preserves_mbind; [| intros ?]
  | |- preserves _ (try_catch _ _) => apply preserves_try_catch; [| intros ?]
  | |- preserves _ (try_finally _ _) => apply preserves_try_finally
  | |- preserves _ (fire _) => apply preserves_fire
  | |- preserves _ (mret _) => apply preserves_mret
  | |- preserves _ (throw _) => apply preserves_throw
  | |- preserves _ (liftR _) => apply preserves_liftR
  | |- preserves _ getState => apply preserves_getState
  | |- preserves _ (inspect _) => apply preserves_inspect
  | |- preserves _ (setState _) => apply preserves_setState; intros ? ?; leaf
  | |- preserves _ (platform _) => apply preserves_platform; intros ? ?; leaf
  | |- preserves _ platform_call =>
      apply preserves_platform_call; intros ? ? ?; leaf
  | |- preserves _ (Promise_all _) =>
      apply preserves_Promise_all; repeat apply List.Forall_cons;
      [.. | apply List.Forall_nil]
  | |- preserves _ (match ?x with _ => _ end) => destruct x
  end.

Ltac preserves_walk leaf := repeat (preserves_step leaf).

Ltac handler_unfold :=
  unfold AsyncStorage_getItem, AsyncStorage_setItem,
    Notifications_scheduleNotificationAsync, Notifications_setNotificationHandler,
    Notifications_getPermissionsAsync, Notifications_requestPermissionsAsync,
    Notifications_setNotificationChannelAsync,
    ImagePicker_requestCameraPermissionsAsync, ImagePicker_launchImageLibraryAsync,
    ImagePicker_launchCameraAsync, Location_requestForegroundPermissionsAsync,
    Location_getCurrentPositionAsync, platform_answer,
    navigation_navigate, navigation_goBack, Alert_alert, console_error,
    JSON_parse_or_throw.

Section ReadOnly.
Context `{JSON}.
Import HomeScreen.

(** X1. Loading the entries reads the store and writes only the [entries]
    and [loading] cells: the store, the four overlays, the notification
    log and the navigation log are as before, whatever the store holds
    and whether or not the read is accepted. *)
Theorem loadEntries_read_only s p :
  let r := loadEntries (s, p) in
  storage (world r) = storage p
  ∧ likedPosts (state r) = likedPosts s
  ∧ commentedPosts (state r) = commentedPosts s
  ∧ sharedPosts (state r) = sharedPosts s
  ∧ savedPosts (state r) = savedPosts s
  ∧ notifications (world r) = notifications p
  ∧ navigation (world r) = navigation p.
Proof.
  intros r.
  assert (Hp : preserves
                 (λ σ : State * Platform,
                    (storage σ.2, likedPosts σ.1, commentedPosts σ.1,
                     sharedPosts σ.1, savedPosts σ.1, notifications σ.2,
                     navigation σ.2))
                 loadEntries).
  { unfold loadEntries. handler_unfold. preserves_walk ltac:(reflexivity). }
  specialize (Hp (s, p)). subst r. unfold world, state. cbn [fst snd] in Hp.
  injection Hp; intros; repeat split; assumption.
Qed.
End ReadOnly.

Section Frames.
Context `{JSON}.

(** X2. Restoring the overlays reads the store and writes only the overlay
    cells: the store, the entries, the alerts, the notification log and
    the navigation log are as before, on every input. *)
Theorem loadActionStates_read_only s p :
  let r := HomeScreen.loadActionStates (s, p) in
  storage (world r) = storage p
  ∧ HomeScreen.entries (state r) = HomeScreen.entries s
  ∧ HomeScreen.loading (state r) = HomeScreen.loading s
  ∧ alerts (world r) = alerts p
  ∧ notifications (world r) = notifications p
  ∧ navigation (world r) = navigation p.
Proof.
  intros r.
  assert (Hp : preserves
                 (λ σ : HomeScreen.State * Platform,
                    (storage σ.2, HomeScreen.entries σ.1, HomeScreen.loading σ.1,
                     alerts σ.2, notifications σ.2, navigation σ.2))
                 HomeScreen.loadActionStates).
  { unfold HomeScreen.loadActionStates, HomeScreen.restore. handler_unfold.
    preserves_walk ltac:(reflexivity). }
  specialize (Hp (s, p)). subst r. unfold world, state. cbn [fst snd] in Hp.
  injection Hp; intros; repeat split; assumption.
Qed.

(** X3. Deleting an entry purges nothing else: the four overlays in memory
    are as before, and so is every key of the store other than the
    collection key, whatever the button and whatever the store does. *)
Theorem removeEntry_keeps_overlays id pressed key s p :
  key ≠ "travelEntries" →
  let r := HomeScreen.removeEntry id pressed (s, p) in
  storage (world r) !! key = storage p !! key
  ∧ ∀ k, HomeScreen.posts k (state r) = HomeScreen.posts k s.
Proof.
  intros Hkey r.
  assert (Hp : preserves
                 (λ σ : HomeScreen.State * Platform,
                    (storage σ.2 !! key, HomeScreen.likedPosts σ.1,
                     HomeScreen.commentedPosts σ.1, HomeScreen.sharedPosts σ.1,
                     HomeScreen.savedPosts σ.1))
                 (HomeScreen.removeEntry id pressed)).
  { unfold HomeScreen.removeEntry. handler_unfold.
    preserves_walk ltac:(cbn; rewrite ?lookup_insert_ne by done; reflexivity). }
  specialize (Hp (s, p)). subst r. unfold world, state. cbn [fst snd] in Hp.
  injection Hp; intros. split; [assumption |]. by intros [].
Qed.

(** X4. Saving writes the collection key only and keeps what the user
    entered: every other key of the store and the image, location,
    address, title and description of the form are as before, on every
    input. *)
Theorem saveEntry_keeps_form_and_other_keys now date key s p :
  key ≠ "travelEntries" →
  let r := AddEntryScreen.saveEntry now date (s, p) in
  storage (world r) !! key = storage p !! key
  ∧ form_fields (state r) = form_fields s.
Proof.
  intros Hkey r.
  assert (Hp : preserves
                 (λ σ : AddEntryScreen.State * Platform,
                    (storage σ.2 !! key, form_fields σ.1))
                 (AddEntryScreen.saveEntry now date)).
  { unfold AddEntryScreen.saveEntry. handler_unfold.
    preserves_walk ltac:(cbn; rewrite ?lookup_insert_ne by done; reflexivity). }
  specialize (Hp (s, p)). subst r. unfold world, state. cbn [fst snd] in Hp.
  split; congruence.
Qed.

(** X5. Choosing or taking a picture and resolving the location never touch
    the store, the title or the description. *)
Theorem pickers_keep_store_and_text picked position geocode s p :
  let kept (r : Result () * (AddEntryScreen.State * Platform)) :=
    storage (world r) = storage p
    ∧ AddEntryScreen.title (state r) = AddEntryScreen.title s
    ∧ AddEntryScreen.description (state r) = AddEntryScreen.description s in
  kept (AddEntryScreen.getLocation position geocode (s, p))
  ∧ kept (AddEntryScreen.pickImage picked position geocode (s, p))
  ∧ kept (AddEntryScreen.takePicture picked position geocode (s, p)).
Proof.
  intros kept.
  assert (Hp : ∀ m, m = AddEntryScreen.getLocation position geocode
                    ∨ m = AddEntryScreen.pickImage picked position geocode
                    ∨ m = AddEntryScreen.takePicture picked position geocode →
                    preserves
                      (λ σ : AddEntryScreen.State * Platform,
                         (storage σ.2, AddEntryScreen.title σ.1,
                          AddEntryScreen.description σ.1)) m).
  { intros m [-> | [-> | ->]];
      unfold AddEntryScreen.pickImage, AddEntryScreen.takePicture,
        AddEntryScreen.getLocation; handler_unfold;
      preserves_walk ltac:(reflexivity). }
  subst kept. unfold world, state.
  repeat split;
    match goal with
    | |- context [?m (s, p)] =>
        let Hm := fresh in
        assert (Hm := Hp m ltac:(tauto) (s, p)); cbn [fst snd] in Hm;
        injection Hm; intros; assumption
    end.
Qed.
End Frames.

Lemma removeEntry_keeps_overlays_witness :
  let p := Sample.device [("likedPosts", Codec.stringify Sample.flags)] in
  let r := HomeScreen.removeEntry "1" HomeScreen.Delete (Sample.home, p) in
  storage (world r) !! "likedPosts" = Some (Codec.stringify Sample.flags)
  ∧ ∀ k, HomeScreen.posts k (state r) = HomeScreen.posts k Sample.home.
Proof.
  intros p.
  apply (removeEntry_keeps_overlays "1" HomeScreen.Delete "likedPosts" Sample.home p).
  discriminate.
Defined.

Lemma saveEntry_keeps_form_and_other_keys_witness :
  let p := Sample.device [("likedPosts", Codec.stringify Sample.flags)] in
  let r := AddEntryScreen.saveEntry Sample.now Sample.date (Sample.form, p) in
  storage (world r) !! "likedPosts" = Some (Codec.stringify Sample.flags)
  ∧ form_fields (state r) = form_fields Sample.form.
Proof.
  intros p.
  apply (saveEntry_keeps_form_and_other_keys Sample.now Sample.date "likedPosts"
           Sample.form p).
  discriminate.
Defined.

(** ** Outcomes: what a handler lets escape *)

Section Settle.
Context {St : Type}.

Lemma settles_mret {A} (x : A) : settles (mret x : Async St A).
Proof. intros σ. by exists x. Qed.

Lemma settles_getState : settles (getState : Async St St).
Proof. intros σ. by eexists. Qed.

Lemma settles_setState (f : St → St) : settles (setState f).
Proof. intros σ. by eexists. Qed.

Lemma settles_platform (f : Platform → Platform) :
  settles (platform f : Async St unit).
Proof. intros σ. by eexists. Qed.

Lemma settles_fire (m : Async St unit) : settles (fire m).
Proof. intros σ. by eexists. Qed.

Lemma settles_mbind {A B} (m : Async St A) (f : A → Async St B) :
  settles m → (∀ x, settles (f x)) → settles (m ≫= f).
Proof.
  intros Hm Hf σ. unfold mbind, Async_bind. destruct (Hm σ) as [x Hx].
  destruct (m σ) as [[e | y] σ']; [discriminate |]. apply Hf.
Qed.

(** A [try] settles as soon as its [catch] clause does. *)
Lemma settles_try_catch {A} (m : Async St A) (h : Exn → Async St A) :
  (∀ e, settles (h e)) → settles (try_catch m h).
Proof.
  intros Hh σ. unfold try_catch.
  destruct (m σ) as [[e | y] σ']; [apply Hh | by eexists].
Qed.

Lemma settles_try_finally {A} (m : Async St A) (f : Async St unit) :
  settles m → settles f → settles (try_finally m f).
Proof.
  intros Hm Hf σ. unfold try_finally. destruct (Hm σ) as [x Hx].
  destruct (m σ) as [r σ']. destruct (Hf σ') as [y Hy].
  destruct (f σ') as [[e | z] σ'']; [discriminate |]. by exists x.
Qed.

(** After [finally { setState(f) }] the state is [f] of what the body
    left. *)
Lemma try_finally_setState {A} (m : Async St A) (f : St → St) σ :
  (try_finally m (setState f) σ).2.1 = f (m σ).2.1.
Proof. unfold try_finally, setState. by destruct (m σ) as [r σ']. Qed.
End Settle.

Ltac settles_step :=
  lazymatch goal with
  | |- settles (_ ≫= _) => apply settles_mbind; [| intros ?]
  | |- settles (try_catch _ _) => apply settles_try_catch; intros ?
  | |- settles (try_finally _ _) => apply settles_try_finally
  | |- settles (fire _) => apply settles_fire
  | |- settles (mret _) => apply settles_mret
  | |- settles getState => apply settles_getState
  | |- settles (setState _) => apply settles_setState
  | |- settles (platform _) => apply settles_platform
  | |- settles (match ?x with _ => _ end) => destruct x
  end.

Ltac settles_walk := repeat settles_step.

Lemma settled {St} (m : Async St unit) σ : settles m → outcome (m σ) = inr ().
Proof. intros Hm. destruct (Hm σ) as [[] Hx]. exact Hx. Qed.

Section Outcomes.
Context `{JSON}.

(** X6. No handler of the home screen lets an exception escape, whatever
    the store holds and whichever calls it rejects; and [loadEntries]
    always ends with the loading flag off. *)
Theorem home_handlers_settle s p :
  outcome (HomeScreen.loadEntries (s, p)) = inr ()
  ∧ HomeScreen.loading (state (HomeScreen.loadEntries (s, p))) = false
  ∧ outcome (HomeScreen.loadActionStates (s, p)) = inr ()
  ∧ (∀ id pressed, outcome (HomeScreen.removeEntry id pressed (s, p)) = inr ())
  ∧ (∀ id type, outcome (HomeScreen.toggleAction id type (s, p)) = inr ()).
Proof.
  split; [| split; [| split; [| split]]].
  - apply settled. unfold HomeScreen.loadEntries. handler_unfold. settles_walk.
  - unfold state, HomeScreen.loadEntries. by rewrite try_finally_setState.
  - apply settled. unfold HomeScreen.loadActionStates. handler_unfold. settles_walk.
  - intros id pressed. apply settled.
    unfold HomeScreen.removeEntry. handler_unfold. settles_walk.
  - intros id type. apply settled.
    unfold HomeScreen.toggleAction. handler_unfold. settles_walk.
Qed.

(** X7. The handlers of the capture screen let no exception escape either,
    and the ones that switch the loading flag on always switch it off
    again: after [getLocation], [pickImage], [takePicture], and after a
    [saveEntry] that passed validation, [isLoading] is off. *)
Theorem capture_handlers_settle picked position geocode now date s p :
  let done (r : Result () * (AddEntryScreen.State * Platform)) :=
    outcome r = inr () ∧ AddEntryScreen.isLoading (state r) = false in
  done (AddEntryScreen.getLocation position geocode (s, p))
  ∧ done (AddEntryScreen.pickImage picked position geocode (s, p))
  ∧ done (AddEntryScreen.takePicture picked position geocode (s, p))
  ∧ outcome (AddEntryScreen.saveEntry now date (s, p)) = inr ()
  ∧ (rejected_form s = false → done (AddEntryScreen.saveEntry now date (s, p)))
  ∧ (∀ camera location notification pressed,
       outcome (AddEntryScreen.requestPermissions camera location notification
                  pressed (s, p)) = inr ()).
Proof.
  intros done. subst done. cbn beta.
  assert (Hsave : settles (AddEntryScreen.saveEntry now date)).
  { unfold AddEntryScreen.saveEntry. handler_unfold. settles_walk. }
  repeat split.
  - apply settled. unfold AddEntryScreen.getLocation. handler_unfold. settles_walk.
  - unfold state, AddEntryScreen.getLocation. by rewrite try_finally_setState.
  - apply settled. unfold AddEntryScreen.pickImage, AddEntryScreen.getLocation.
    handler_unfold. settles_walk.
  - unfold state, AddEntryScreen.pickImage. by rewrite try_finally_setState.
  - apply settled. unfold AddEntryScreen.takePicture, AddEntryScreen.getLocation.
    handler_unfold. settles_walk.
  - unfold state, AddEntryScreen.takePicture. by rewrite try_finally_setState.
  - by apply settled.
  - by apply settled.
  - unfold state, AddEntryScreen.saveEntry, rejected_form in *.
    unfold mbind at 1. unfold Async_bind, getState. cbn [fst snd].
    match goal with Hr : _ = false |- _ => rewrite Hr end.
    by rewrite try_finally_setState.
  - intros camera location notification pressed. apply settled.
    unfold AddEntryScreen.requestPermissions. handler_unfold. settles_walk.
Qed.

(** X8. The launch check lets no exception escape and always ends with the
    loading flag of the application off, whatever the answers of the
    permission services, the button and the store. *)
Theorem checkAndRequestPermissions_settles a pressed s p :
  let r := App.checkAndRequestPermissions a pressed (s, p) in
  outcome r = inr () ∧ App.isLoading (state r) = false.
Proof.
  intros r. split.
  - apply settled. unfold App.checkAndRequestPermissions. handler_unfold.
    settles_walk.
  - subst r. unfold state, App.checkAndRequestPermissions.
    unfold mbind at 1. unfold Async_bind.
    match goal with
    | |- context [try_finally ?m (setState ?f) ?σ] =>
        pose proof (try_finally_setState m f σ) as Hfin;
        destruct (try_finally m (setState f) σ) as [[e | welcomed] [s' p']]
    end; cbn [fst snd] in *; [by rewrite Hfin |].
    destruct (welcomed && pressed); cbn [fst snd]; [| by rewrite Hfin].
    assert (Hp : preserves (λ σ : App.State * Platform, σ.1) (App.onContinue a)).
    { unfold App.onContinue, App.requestPermissions, App.alert_if. handler_unfold.
      preserves_walk ltac:(reflexivity). }
    unfold fire. cbn [fst snd]. rewrite (Hp (s', p')). cbn [fst]. by rewrite Hfin.
Qed.
End Outcomes.

(** ** An invariant of the home screen *)

Lemma required_fields_null : required_fields JNull = false.
Proof. reflexivity. Qed.

Lemma records_only_filter items : records_only (List.filter required_fields items).
Proof.
  apply Forall_forall. intros e He.
  apply elem_of_filter_required in He as [_ He]. split; [| done].
  intros ->. discriminate.
Qed.

Lemma filter_items_sub (cb : JValue → Result bool) xs ys :
  filter_items cb xs = inr ys → ∀ y, y ∈ ys → y ∈ xs.
Proof.
  revert ys. induction xs as [| x xs IH]; intros ys Hf y Hy; simpl in Hf.
  - injection Hf as <-. done.
  - destruct (cb x) as [e | keep]; [discriminate |]. simpl in Hf.
    destruct (filter_items cb xs) as [e | rest]; [discriminate |]. simpl in Hf.
    injection Hf as <-. destruct keep.
    + apply elem_of_cons in Hy as [-> | Hy]; [by left |]. right. by eapply IH.
    + right. by eapply IH.
Qed.

Lemma records_only_sub xs ys :
  (∀ y, y ∈ ys → y ∈ xs) → records_only xs → records_only ys.
Proof.
  unfold records_only. rewrite !Forall_forall. intros Hsub Hxs y Hy.
  by apply Hxs, Hsub.
Qed.

Lemma records_only_no_null entries : records_only entries → JNull ∉ entries.
Proof.
  unfold records_only. rewrite Forall_forall. intros Hall Hin.
  by destruct (Hall JNull Hin).
Qed.

Section Invariant.
Context `{JSON}.
Import HomeScreen.

Lemma loadEntries_records_only s p :
  records_only (entries s) → records_only (entries (state (loadEntries (s, p)))).
Proof.
  intros Hs. unfold loadEntries, state. async_unfold. simpl.
  destruct (faults p) as [| [] fs]; simpl; try done;
    (destruct (truthy_text (storage p !! "travelEntries")) as [text |]; simpl;
     [| by apply Forall_nil];
     destruct (JSON_parse text) as [v |]; simpl; [| by apply Forall_nil];
     destruct v as [| | | | items |]; simpl; try (by apply Forall_nil);
     destruct (filter_items_cases items) as [-> | ->]; simpl;
     [apply records_only_filter | by apply Forall_nil]).
Qed.

Lemma removeEntry_records_only id pressed s p :
  records_only (entries s) →
  records_only (entries (state (removeEntry id pressed (s, p)))).
Proof.
  intros Hs. unfold removeEntry, state. async_unfold. simpl.
  destruct pressed; simpl; [done |].
  destruct (filter_items (other_entry id) (entries s)) as [e | kept] eqn:Hk;
    simpl; [done |].
  destruct (faults p) as [| [] fs]; simpl; try done;
    (apply (records_only_sub (entries s));
     [exact (filter_items_sub _ _ _ Hk) | exact Hs]).
Qed.

Lemma loadActionStates_entries s p :
  entries (loadActionStates (s, p)).2.1 = entries s.
Proof.
  assert (Hp : preserves (λ σ : State * Platform, entries σ.1) loadActionStates).
  { unfold loadActionStates, restore. handler_unfold.
    preserves_walk ltac:(reflexivity). }
  apply (Hp (s, p)).
Qed.

Lemma home_step_records_only event s p :
  records_only (entries s) → records_only (entries (home_step event (s, p)).2.1).
Proof.
  intros Hs. destruct event as [| | id pressed | id type]; simpl.
  - unfold mountEffect, fire, mbind, Async_bind. cbn [fst snd].
    pose proof (loadEntries_records_only s p Hs) as Hl. unfold state in Hl.
    destruct (loadEntries (s, p)) as [r [s1 p1]]. cbn [fst snd] in *.
    by rewrite loadActionStates_entries.
  - unfold focusListener, fire. cbn [fst snd]. by apply loadEntries_records_only.
  - unfold fire. cbn [fst snd]. by apply removeEntry_records_only.
  - unfold fire. cbn [fst snd].
    destruct (toggleAction_state id type s p) as [_ Hst]. unfold state in Hst.
    rewrite Hst. destruct (toggled (posts type s) id); [done |]. by destruct type.
Qed.

Lemma home_run_records_only events s p :
  records_only (entries s) → records_only (entries (home_run events (s, p)).1).
Proof.
  revert s p. induction events as [| event events IH]; intros s p Hs; [done |].
  simpl. pose proof (home_step_records_only event s p Hs) as Hstep.
  destruct (home_step event (s, p)) as [r [s1 p1]]. by apply IH.
Qed.

(** X9. Whatever happens to the home screen after it is mounted (mounting,
    focus, delete dialogs with either answer, toggles), whatever the store
    holds or rejects and whatever the runtime parses, the entries held in
    memory are records: never [null], and each with a truthy [id],
    [title], [description] and [image]. *)
Theorem home_entries_are_records events p :
  records_only (entries (home_run events (mount, p)).1).
Proof.
  assert (Hmount : records_only (entries mount)) by apply List.Forall_nil.
  generalize dependent mount. intros s Hs. revert s p Hs.
  induction events as [| event events IH]; intros s p Hs; [done |].
  simpl. pose proof (home_step_records_only event s p Hs) as Hstep.
  destruct (home_step event (s, p)) as [r [s1 p1]]. by apply IH.
Qed.

(** X10. In any state the home screen can reach, a confirmed delete that the
    store accepts goes through: the entries become the ones with another
    id, they are what is written back, nothing is logged and no failure
    dialog is shown. *)
Theorem removeEntry_succeeds_when_reached events p0 id :
  let σ := home_run events (mount, p0) in
  faults σ.2 = [] →
  let r := removeEntry id Delete σ in
  entries (state r) = List.filter (keeps id) (entries σ.1)
  ∧ storage (world r) !! "travelEntries"
    = Some (JSON_stringify (JArray (entries (state r))))
  ∧ alerts (world r) = (alerts σ.2 ++ [confirmation])%list
  ∧ console (world r) = console σ.2.
Proof.
  intros σ Hf r.
  assert (Hrec : records_only (entries σ.1))
    by (apply home_run_records_only; apply List.Forall_nil).
  subst r. destruct σ as [s p]. cbn [fst snd] in *.
  rewrite removeEntry_deleted by done.
  rewrite filter_items_other by by apply records_only_no_null.
  unfold state, world. cbn [fst snd]. repeat split.
  simpl. by rewrite lookup_insert_eq.
Qed.
End Invariant.

Lemma removeEntry_succeeds_when_reached_witness :
  let p0 := Sample.device
              [("travelEntries",
                Codec.stringify (JArray [Sample.beach; JNumber 7; Sample.harbour]))] in
  let σ := home_run [Mounted; ActionPressed "1" HomeScreen.like] (HomeScreen.mount, p0) in
  let r := HomeScreen.removeEntry "1" HomeScreen.Delete σ in
  HomeScreen.entries σ.1 = [Sample.beach; Sample.harbour]
  ∧ HomeScreen.entries (state r) = [Sample.harbour]
  ∧ console (world r) = [].
Proof.
  intros p0 σ r.
  destruct (removeEntry_succeeds_when_reached
              [Mounted; ActionPressed "1" HomeScreen.like] p0 "1")
    as (He & _ & _ & Hc); [vm_compute; reflexivity |].
  split; [vm_compute; reflexivity |]. split; [exact He | exact Hc].
Defined.

(** ** The launch of the application *)

Section Launch.
Context `{JSON}.

Lemma App_requestPermissions_accepted a s p :
  faults p = [] →
  let r := App.requestPermissions a (s, p) in
  outcome r = inr ()
  ∧ state r = s
  ∧ faults (world r) = []
  ∧ alerts (world r) = (alerts p ++ refusals a)%list
  ∧ console (world r) = console p
  ∧ storage (world r) = initialised (storage p).
Proof.
  intros Hf r. subst r.
  unfold App.requestPermissions, App.alert_if, refusals, finalStatus, initialised.
  handler_unfold. async_unfold. simpl. rewrite !Hf. simpl.
  destruct (not_granted (App.cameraStatus a)); simpl; rewrite ?Hf; simpl;
    destruct (not_granted (App.locationStatus a)); simpl; rewrite ?Hf; simpl;
    destruct (String.eqb (App.OS a) "ios"); simpl; rewrite ?Hf; simpl;
    destruct (not_granted (App.existingStatus a)) eqn:He; simpl;
    rewrite ?Hf, ?He; simpl;
    destruct (not_granted (App.requestedStatus a)); simpl; rewrite ?Hf; simpl;
    destruct (AddEntryScreen.falsy (storage p !! "travelEntries")); simpl;
    rewrite ?Hf; simpl; rewrite <- ?app_assoc, ?app_nil_r; done.
Qed.

(** X11. When the permission services and the store accept their calls,
    [App.requestPermissions] initialises the collection whatever the
    answers are: an absent or empty collection key receives the
    serialized empty list, any other text is kept, every other key is as
    before, and nothing is logged. *)
Theorem requestPermissions_initialises_store a s p :
  faults p = [] →
  let r := App.requestPermissions a (s, p) in
  storage (world r) !! "travelEntries"
  = (if AddEntryScreen.falsy (storage p !! "travelEntries")
     then Some (JSON_stringify (JArray []))
     else storage p !! "travelEntries")
  ∧ (∀ key, key ≠ "travelEntries" → storage (world r) !! key = storage p !! key)
  ∧ console (world r) = console p.
Proof.
  intros Hf r.
  destruct (App_requestPermissions_accepted a s p Hf) as (_ & _ & _ & _ & Hc & Hst).
  fold r in Hc, Hst. rewrite Hst. unfold initialised.
  destruct (AddEntryScreen.falsy (storage p !! "travelEntries")).
  - split; [apply lookup_insert_eq |]. split; [| done].
    intros key Hkey. by apply lookup_insert_ne.
  - done.
Qed.

(** X12. With every call accepted, the dialogs [App.requestPermissions] shows
    are the refusals, in the order camera, location, notifications; so no
    dialog is shown exactly when the camera, the location and the final
    notification status are all granted (on iOS a granted existing status
    is final and no request is made). *)
Theorem requestPermissions_alerts a s p :
  faults p = [] →
  let r := App.requestPermissions a (s, p) in
  alerts (world r) = (alerts p ++ refusals a)%list
  ∧ (alerts (world r) = alerts p
     ↔ App.cameraStatus a = "granted" ∧ App.locationStatus a = "granted"
       ∧ finalStatus a = "granted").
Proof.
  intros Hf r.
  destruct (App_requestPermissions_accepted a s p Hf) as (_ & _ & _ & Ha & _).
  fold r in Ha. split; [exact Ha |]. rewrite Ha. unfold refusals, not_granted.
  destruct (String.eqb_spec (App.cameraStatus a) "granted") as [-> | Hc];
    destruct (String.eqb_spec (App.locationStatus a) "granted") as [-> | Hl];
    destruct (String.eqb_spec (finalStatus a) "granted") as [-> | Hn];
    simpl; rewrite ?app_nil_r;
    (split;
     [ intros Heq; try done;
       apply (f_equal length) in Heq; rewrite length_app in Heq; simpl in Heq; lia
     | intros (? & ? & ?); congruence ]).
Qed.

(** When the first permission request is rejected, the initialisation
    is skipped: the store and the alerts are as before and the rejection
    is logged. *)
Theorem requestPermissions_rejected a s p fs :
  faults p = true :: fs →
  let r := App.requestPermissions a (s, p) in
  outcome r = inr ()
  ∧ storage (world r) = storage p
  ∧ alerts (world r) = alerts p
  ∧ console (world r)
    = (console p ++ [("Error requesting permissions:", Rejected)])%list.
Proof.
  intros Hf r. subst r. unfold App.requestPermissions.
  handler_unfold. async_unfold. simpl. by rewrite Hf.
Qed.

Lemma App_checkAndRequestPermissions_run a pressed s p :
  faults p = [] →
  let r := App.checkAndRequestPermissions a pressed (s, p) in
  let first := AddEntryScreen.falsy (storage p !! "isFirstLaunch") in
  alerts (world r)
  = (alerts p ++ (if first then [App.welcome_alert] else [])
       ++ (if first && negb pressed then [] else refusals a))%list
  ∧ storage (world r)
    = (if first
       then if pressed
            then <["isFirstLaunch" := "false"]> (initialised (storage p))
            else storage p
       else initialised (storage p))
  ∧ console (world r) = console p
  ∧ faults (world r) = [].
Proof.
  intros Hf r first. subst r first. unfold App.checkAndRequestPermissions.
  unfold mbind at 1. unfold Async_bind.
  unfold try_finally at 1. unfold try_catch at 1.
  unfold mbind at 1. unfold Async_bind.
  unfold AsyncStorage_getItem at 1. async_unfold. cbn [fst snd].
  rewrite Hf. cbn [fst snd].
  destruct (AddEntryScreen.falsy (storage p !! "isFirstLaunch")); cbn [fst snd andb].
  - destruct pressed; cbn [fst snd negb andb].
    + pose proof (App_requestPermissions_accepted a (App.setIsLoading false s)
                    (with_alerts (alerts p ++ [App.welcome_alert]) p) Hf)
        as (Ho & Hs & Hf' & Ha & Hc & Hst).
      unfold fire, App.onContinue. cbn [fst snd].
      unfold mbind at 1. unfold Async_bind.
      unfold outcome, state, world in *. handler_unfold. async_unfold.
      destruct (App.requestPermissions a _) as [o [s' p']]. cbn [fst snd] in *.
      subst o. cbn [fst snd]. rewrite Hf'. cbn [fst snd with_storage storage alerts console].
      rewrite Ha, Hst, Hc. cbn. by rewrite <- app_assoc, Hf'.
    + cbn. by rewrite ?app_nil_r, Hf.
  - pose proof (App_requestPermissions_accepted a s p Hf)
      as (Ho & Hs & Hf' & Ha & Hc & Hst).
    unfold outcome, state, world in *.
    destruct (App.requestPermissions a (s, p)) as [o [s' p']]. cbn [fst snd] in *.
    subst o. cbn. by rewrite Ha, Hst, Hc, Hf'.
Qed.

(** X13. A first launch (flag absent or empty) with every call accepted: the
    welcome dialog is shown first; when Continue is pressed the
    permissions are requested, the collection is initialised and the flag
    is set to the text false; when it is not, nothing is requested and
    the store stays as it was. *)
Theorem checkAndRequestPermissions_first_launch a pressed s p :
  faults p = [] →
  AddEntryScreen.falsy (storage p !! "isFirstLaunch") = true →
  let r := App.checkAndRequestPermissions a pressed (s, p) in
  (pressed = true →
     alerts (world r) = (alerts p ++ App.welcome_alert :: refusals a)%list
     ∧ storage (world r) !! "isFirstLaunch" = Some "false"
     ∧ storage (world r) !! "travelEntries"
       = initialised (storage p) !! "travelEntries")
  ∧ (pressed = false →
       alerts (world r) = (alerts p ++ [App.welcome_alert])%list
       ∧ storage (world r) = storage p).
Proof.
  intros Hf Hfirst r.
  destruct (App_checkAndRequestPermissions_run a pressed s p Hf) as (Ha & Hst & _ & _).
  fold r in Ha, Hst. rewrite Hfirst in Ha, Hst. split; intros ->; simpl in *.
  - rewrite Ha, Hst. split; [done |]. split; [apply lookup_insert_eq |].
    by apply lookup_insert_ne.
  - by rewrite Ha, Hst.
Qed.

(** X14. A later launch (flag present) with every call accepted: no welcome
    dialog, the permissions are requested at once, the flag is left as
    it is and the collection is initialised. *)
Theorem checkAndRequestPermissions_later_launch a pressed s p flag :
  faults p = [] →
  storage p !! "isFirstLaunch" = Some flag →
  flag ≠ "" →
  let r := App.checkAndRequestPermissions a pressed (s, p) in
  alerts (world r) = (alerts p ++ refusals a)%list
  ∧ storage (world r) !! "isFirstLaunch" = Some flag
  ∧ storage (world r) = initialised (storage p).
Proof.
  intros Hf Hflag Hne r.
  destruct (App_checkAndRequestPermissions_run a pressed s p Hf) as (Ha & Hst & _ & _).
  fold r in Ha, Hst.
  assert (Hfirst : AddEntryScreen.falsy (storage p !! "isFirstLaunch") = false)
    by (rewrite Hflag; by apply falsy_Some).
  rewrite Hfirst in Ha, Hst. simpl in Ha. rewrite Ha, Hst.
  split; [done |]. split; [| done]. unfold initialised.
  destruct (AddEntryScreen.falsy (storage p !! "travelEntries")); [| done].
  by rewrite lookup_insert_ne.
Qed.

(** X15. Scenario A with the application in front: on a device where neither
    the flag nor the collection exists, a first launch with Continue
    pressed followed by [loadEntries] returns an empty sequence from a
    store that now holds the serialized empty list, and logs nothing,
    provided the runtime reads its own empty list back. *)
Theorem first_launch_then_loadEntries a s home p :
  faults p = [] →
  storage p !! "isFirstLaunch" = None →
  storage p !! "travelEntries" = None →
  JSON_parse (JSON_stringify (JArray [])) = Some (JArray []) →
  let r1 := App.checkAndRequestPermissions a true (s, p) in
  let r2 := HomeScreen.loadEntries (home, world r1) in
  HomeScreen.entries (state r2) = []
  ∧ storage (world r2) !! "travelEntries" = Some (JSON_stringify (JArray []))
  ∧ storage (world r2) !! "isFirstLaunch" = Some "false"
  ∧ console (world r2) = console p.
Proof.
  intros Hf Hflag Hkey Hrt r1 r2.
  destruct (App_checkAndRequestPermissions_run a true s p Hf) as (_ & Hst & Hc & Hf1).
  fold r1 in Hst, Hc, Hf1. rewrite Hflag in Hst. simpl in Hst.
  unfold initialised in Hst. rewrite Hkey in Hst. simpl in Hst.
  assert (Htext : storage (world r1) !! "travelEntries"
                  = Some (JSON_stringify (JArray [])))
    by (rewrite Hst; rewrite lookup_insert_ne by done; apply lookup_insert_eq).
  assert (Hrun : r2 = (inr (),
                       (HomeScreen.setLoading false
                          (HomeScreen.setEntries [] (HomeScreen.setLoading true home)),
                        world r1))).
  { subst r2. erewrite loadEntries_parsed; [| exact Hf1 | | exact Hrt]; [done |].
    rewrite Htext. by eapply truthy_text_parsed. }
  rewrite Hrun. split; [done |]. split; [exact Htext |]. split; [| exact Hc].
  change (storage (world r1) !! "isFirstLaunch" = Some "false").
  rewrite Hst. apply lookup_insert_eq.
Qed.
End Launch.

Lemma requestPermissions_initialises_store_witness :
  let p := Sample.device [("likedPosts", Codec.stringify Sample.flags)] in
  let r := App.requestPermissions Sample.camera_denied (App.mkState true, p) in
  storage (world r) !! "travelEntries" = Some "[]"
  ∧ storage (world r) !! "likedPosts" = Some (Codec.stringify Sample.flags)
  ∧ console (world r) = [].
Proof.
  intros p.
  destruct (requestPermissions_initialises_store Sample.camera_denied
              (App.mkState true) p) as (Hkey & Hother & Hc); [reflexivity |].
  split; [exact Hkey |]. split; [| exact Hc].
  apply (Hother "likedPosts"). discriminate.
Defined.

Lemma requestPermissions_alerts_witness :
  let r := App.requestPermissions Sample.camera_denied
             (App.mkState true, Sample.device []) in
  alerts (world r) = [App.camera_alert].
Proof.
  destruct (requestPermissions_alerts Sample.camera_denied (App.mkState true)
              (Sample.device [])) as (Ha & _); [reflexivity |].
  exact Ha.
Defined.

Lemma requestPermissions_rejected_witness :
  let p := with_faults [true] (Sample.device []) in
  let r := App.requestPermissions Sample.all_granted (App.mkState true, p) in
  outcome r = inr ()
  ∧ storage (world r) = storage p
  ∧ alerts (world r) = alerts p
  ∧ console (world r) = [("Error requesting permissions:", Rejected)].
Proof.
  intros p.
  apply (requestPermissions_rejected Sample.all_granted (App.mkState true) p []).
  reflexivity.
Defined.

Lemma checkAndRequestPermissions_first_launch_witness :
  let r := App.checkAndRequestPermissions Sample.all_granted true
             (App.mkState true, Sample.device []) in
  alerts (world r) = [App.welcome_alert]
  ∧ storage (world r) !! "isFirstLaunch" = Some "false"
  ∧ storage (world r) !! "travelEntries" = Some "[]".
Proof.
  destruct (checkAndRequestPermissions_first_launch Sample.all_granted true
              (App.mkState true) (Sample.device [])) as (Hpressed & _);
    [reflexivity | reflexivity |].
  exact (Hpressed eq_refl).
Defined.

Lemma checkAndRequestPermissions_later_launch_witness :
  let p := Sample.device [("isFirstLaunch", "false")] in
  let r := App.checkAndRequestPermissions Sample.camera_denied false
             (App.mkState true, p) in
  alerts (world r) = [App.camera_alert]
  ∧ storage (world r) !! "isFirstLaunch" = Some "false"
  ∧ storage (world r) = initialised (storage p).
Proof.
  intros p.
  apply (checkAndRequestPermissions_later_launch Sample.camera_denied false
           (App.mkState true) p "false"); [reflexivity | reflexivity | discriminate].
Defined.

Lemma first_launch_then_loadEntries_witness :
  let r1 := App.checkAndRequestPermissions Sample.all_granted true
              (App.mkState true, Sample.device []) in
  let r2 := HomeScreen.loadEntries (HomeScreen.mount, world r1) in
  HomeScreen.entries (state r2) = []
  ∧ storage (world r2) !! "travelEntries" = Some "[]"
  ∧ storage (world r2) !! "isFirstLaunch" = Some "false"
  ∧ console (world r2) = [].
Proof.
  destruct (first_launch_then_loadEntries Sample.all_granted (App.mkState true)
              HomeScreen.mount (Sample.device []))
    as (He & Hkey & Hflag & Hc);
    [reflexivity | reflexivity | reflexivity | vm_compute; reflexivity |].
  split; [exact He |]. split; [exact Hkey |]. split; [exact Hflag | exact Hc].
Defined.

(** ** The home screen and the store, together *)

Lemma records_only_required entries :
  records_only entries → List.filter required_fields entries = entries.
Proof.
  unfold records_only. rewrite Forall_forall. intros Hall.
  apply filter_all. intros e He. by destruct (Hall e He).
Qed.

Lemma toggled_not_null posts id :
  posts ≠ JNull → ∃ newState, HomeScreen.toggled posts id = inr newState.
Proof. intros Hn. destruct posts; try done; eexists; reflexivity. Qed.

Lemma storageKey_inj k k' :
  HomeScreen.storageKey k = HomeScreen.storageKey k' → k = k'.
Proof. by destruct k, k'. Qed.

Lemma rank_before k k' :
  k' ∈ take (HomeScreen.rank k) restore_order →
  (HomeScreen.rank k' < HomeScreen.rank k)%nat.
Proof.
  destruct k; simpl; intros Hin;
    repeat (apply elem_of_cons in Hin as [-> | Hin]; [simpl; lia |]);
    by apply elem_of_nil in Hin.
Qed.

Section Restart.
Context `{JSON}.
Import HomeScreen.

(** X16. After a confirmed delete that the store accepts, loading again from
    the store gives the entries the delete left in memory: the records
    with another id, provided the runtime reads the written list back. *)
Theorem removeEntry_then_loadEntries id s p :
  faults p = [] →
  records_only (entries s) →
  let kept := List.filter (keeps id) (entries s) in
  JSON_parse (JSON_stringify (JArray kept)) = Some (JArray kept) →
  let r1 := removeEntry id Delete (s, p) in
  let r2 := loadEntries (state r1, world r1) in
  entries (state r1) = kept
  ∧ entries (state r2) = kept
  ∧ console (world r2) = console p
  ∧ storage (world r2) = storage (world r1).
Proof.
  intros Hf Hrec kept Hrt r1 r2.
  assert (Hnull : JNull ∉ entries s) by by apply records_only_no_null.
  assert (Hkept : records_only kept).
  { apply (records_only_sub (entries s)); [| done].
    intros y Hy. apply list_elem_of_In, filter_In in Hy as [Hy _].
    by apply list_elem_of_In. }
  assert (E1 : r1 = (inr (),
                (setEntries kept s,
                 with_storage
                   (<["travelEntries" := JSON_stringify (JArray kept)]> (storage p))
                   (with_alerts (alerts p ++ [confirmation]) p)))).
  { subst r1. rewrite removeEntry_deleted by done. by rewrite filter_items_other. }
  subst r2. rewrite E1. unfold state, world. cbn [fst snd].
  erewrite loadEntries_parsed; [| done | | exact Hrt].
  2: { simpl. rewrite lookup_insert_eq. by eapply truthy_text_parsed. }
  simpl. rewrite filter_items_valid by by apply records_only_no_null.
  by rewrite records_only_required.
Qed.

Lemma restore_all_readable ks p s :
  (∀ k, k ∈ ks → ∃ v, readback (storage p !! storageKey k) = inr v) →
  (restore_all ks p s).2 = None.
Proof.
  revert s. induction ks as [| k ks IH]; intros s Hall; simpl; [done |].
  destruct (Hall k) as [v ->]; [by left |].
  destruct v; apply IH; intros k' Hk'; apply Hall; by right.
Qed.

Lemma loadActionStates_restores k s p v :
  faults p = [] →
  (∀ k', (rank k' < rank k)%nat →
     ∃ v', readback (storage p !! storageKey k') = inr v') →
  readback (storage p !! storageKey k) = inr (Some v) →
  posts k (state (loadActionStates (s, p))) = v.
Proof.
  intros Hf Hb Hk. rewrite loadActionStates_restore_all by done.
  unfold state. cbn [fst snd].
  destruct (restore_order_split k) as (_ & _ & _ & Hlast & _).
  rewrite restore_all_upto, Hlast, restore_all_app.
  pose proof (restore_all_readable (take (rank k) restore_order) p s) as Hr.
  destruct (restore_all (take (rank k) restore_order) p s) as [s1 o].
  cbn [snd] in Hr. rewrite Hr.
  - simpl. rewrite Hk. simpl. apply posts_setPosts.
  - intros k' Hk'. by apply Hb, rank_before.
Qed.

Lemma toggleAction_failed id type s p e :
  toggled (posts type s) id = inl e →
  toggleAction id type (s, p)
  = (inr (), (s, with_console (console p ++ [("Error toggling action:", e)]) p)).
Proof.
  intros Ht. unfold toggleAction. async_unfold.
  destruct type; simpl in *; by rewrite Ht.
Qed.

(** X17. A toggle the store accepts survives a restart of the screen: a
    freshly mounted screen that loads the action states shows the overlay
    the toggle left in memory, provided the runtime reads the written
    overlay back and the keys restored before this kind are readable. *)
Theorem toggleAction_survives_restart id k s p :
  faults p = [] →
  posts k s ≠ JNull →
  (∀ k', (rank k' < rank k)%nat →
     ∃ v, readback (storage p !! storageKey k') = inr v) →
  let r1 := toggleAction id k (s, p) in
  JSON_parse (JSON_stringify (posts k (state r1))) = Some (posts k (state r1)) →
  let r2 := loadActionStates (mount, world r1) in
  toggled (posts k s) id = inr (posts k (state r1))
  ∧ posts k (state r2) = posts k (state r1).
Proof.
  intros Hf Hn Hb r1.
  destruct (toggled_not_null (posts k s) id Hn) as [newState Ht].
  destruct (toggleAction_state id k s p) as [_ Hs1]. fold r1 in Hs1.
  rewrite Ht in Hs1. rewrite Hs1, posts_setPosts. intros Hrt r2.
  split; [done |]. subst r2 r1.
  rewrite (toggleAction_persisted id k s p newState Hf Ht).
  apply loadActionStates_restores; [done | |].
  - intros k' Hk'. simpl. rewrite lookup_insert_ne; [by apply Hb |].
    intros Heq. apply storageKey_inj in Heq. subst k'. lia.
  - simpl. rewrite lookup_insert_eq. unfold readback.
    rewrite (truthy_text_parsed _ _ Hrt). by rewrite Hrt.
Qed.

(** X18. An overlay text that deserializes to [null] disables the toggles of
    its kind: [loadActionStates] installs [null] as the overlay, and every
    later toggle of that kind fails on reading the flag, is logged and
    changes neither the state nor the store. *)
Theorem toggleAction_null_overlay id k s p text :
  faults p = [] →
  storage p !! storageKey k = Some text →
  JSON_parse text = Some JNull →
  (∀ k', (rank k' < rank k)%nat →
     ∃ v, readback (storage p !! storageKey k') = inr v) →
  let r1 := loadActionStates (s, p) in
  let r2 := toggleAction id k (state r1, world r1) in
  posts k (state r1) = JNull
  ∧ outcome r2 = inr ()
  ∧ state r2 = state r1
  ∧ storage (world r2) = storage p
  ∧ console (world r2)
    = (console (world r1) ++ [("Error toggling action:", TypeError)])%list.
Proof.
  intros Hf Hs Hp Hb r1 r2.
  assert (Hnull : posts k (state r1) = JNull).
  { apply loadActionStates_restores; [done | done |].
    rewrite Hs. unfold readback.
    rewrite (truthy_text_parsed _ _ Hp). by rewrite Hp. }
  assert (Hst : storage (world r1) = storage p).
  { subst r1. rewrite loadActionStates_restore_all by done.
    unfold world. cbn [snd]. by destruct (restore_all restore_order p s).2. }
  split; [done |]. subst r2.
  rewrite (toggleAction_failed id k (state r1) (world r1) TypeError)
    by by rewrite Hnull.
  by rewrite <- Hst.
Qed.

(** X19. When the store rejects one of the four reads of [loadActionStates],
    no overlay is restored, whatever the other keys hold: the state is as
    it was and the rejection is logged once. *)
Theorem loadActionStates_read_rejected s p i :
  (i < 4)%nat →
  faults p !! i = Some true →
  let r := loadActionStates (s, p) in
  outcome r = inr ()
  ∧ state r = s
  ∧ storage (world r) = storage p
  ∧ alerts (world r) = alerts p
  ∧ console (world r)
    = (console p ++ [("Error loading action states:", Rejected)])%list.
Proof.
  intros Hi Hrej r. subst r.
  unfold loadActionStates, restore. handler_unfold. async_unfold. simpl.
  destruct (faults p) as [| b1 [| b2 [| b3 [| b4 fs]]]];
    destruct i as [| [| [| [| i]]]]; simpl in Hrej; try lia; try discriminate;
    injection Hrej as ->;
    repeat match goal with b : bool |- _ => destruct b end; done.
Qed.

(** X20. When the store rejects the write of a confirmed delete, the entries
    in memory stay as they were (the state is set after the write), the
    store keeps its text, and the failure is reported and logged. *)
Theorem removeEntry_write_rejected id s p fs :
  faults p = true :: fs →
  JNull ∉ entries s →
  let r := removeEntry id Delete (s, p) in
  outcome r = inr ()
  ∧ state r = s
  ∧ storage (world r) = storage p
  ∧ alerts (world r) = (alerts p ++ [confirmation; removal_failure])%list
  ∧ console (world r) = (console p ++ [("Error removing entry:", Rejected)])%list.
Proof.
  intros Hf Hn r. subst r. unfold removeEntry. handler_unfold. async_unfold.
  cbn [fst snd]. rewrite filter_items_other by done. simpl. rewrite Hf.
  simpl. by rewrite <- app_assoc.
Qed.

(** X21. When the store rejects the write of a toggle, the overlay in memory
    is flipped all the same (the state is set before the write) while
    the store keeps its text: memory and store now disagree, and the
    rejection is only logged. *)
Theorem toggleAction_write_rejected id k s p fs :
  faults p = true :: fs →
  posts k s ≠ JNull →
  let r := toggleAction id k (s, p) in
  outcome r = inr ()
  ∧ toggled (posts k s) id = inr (posts k (state r))
  ∧ storage (world r) = storage p
  ∧ alerts (world r) = alerts p
  ∧ console (world r) = (console p ++ [("Error toggling action:", Rejected)])%list.
Proof.
  intros Hf Hn r. subst r.
  destruct (toggled_not_null (posts k s) id Hn) as [newState Ht].
  unfold toggleAction. handler_unfold. async_unfold.
  destruct k; simpl in *; rewrite Ht; simpl; by rewrite Hf.
Qed.
End Restart.

Section Mounting.
Context `{JSON}.
Import HomeScreen.

Lemma loadEntries_accepted s p :
  faults p = [] →
  ∃ loaded p1,
    loadEntries (s, p)
    = (inr (), (setLoading false (setEntries loaded (setLoading true s)), p1))
    ∧ storage p1 = storage p ∧ faults p1 = [] ∧ alerts p1 = alerts p.
Proof.
  intros Hf. unfold loadEntries. async_unfold. simpl. rewrite Hf. simpl.
  destruct (truthy_text (storage p !! "travelEntries")) as [text |]; simpl.
  - destruct (JSON_parse text) as [v |]; simpl.
    + destruct (Array_filter valid_entry v); simpl; by eexists _, _.
    + by eexists _, _.
  - by eexists _, _.
Qed.

Lemma restore_all_frame (g : State → State) ks p s :
  (∀ k v s', setPosts k v (g s') = g (setPosts k v s')) →
  restore_all ks p (g s) = (g (restore_all ks p s).1, (restore_all ks p s).2).
Proof.
  intros Hg. revert s. induction ks as [| k ks IH]; intros s; simpl; [done |].
  destruct (readback (storage p !! storageKey k)) as [e | [v |]]; simpl;
    [done | rewrite Hg; apply IH | apply IH].
Qed.

(** X22. Mounting the screen starts both loads and neither disturbs the
    other: with a store that accepts the reads, the entries are those
    [loadEntries] alone would give, each overlay is the one
    [loadActionStates] alone would give, the loading flag is off and the
    store is only read. *)
Theorem mountEffect_loads_both s p :
  faults p = [] →
  let r := mountEffect (s, p) in
  outcome r = inr ()
  ∧ entries (state r) = entries (state (loadEntries (s, p)))
  ∧ loading (state r) = false
  ∧ (∀ k, posts k (state r) = posts k (state (loadActionStates (s, p))))
  ∧ storage (world r) = storage p
  ∧ alerts (world r) = alerts p.
Proof.
  intros Hf r. subst r.
  destruct (loadEntries_accepted s p Hf) as (loaded & p1 & Hl & Hst & Hf1 & Ha1).
  unfold mountEffect, fire, mbind, Async_bind. cbn [fst snd].
  rewrite Hl. cbn [fst snd]. rewrite !loadActionStates_restore_all by done.
  unfold outcome, state, world. cbn [fst snd].
  rewrite (restore_all_agree restore_order p p1) by (intros; by rewrite Hst).
  rewrite (restore_all_frame
             (λ s', setLoading false (setEntries loaded (setLoading true s'))))
    by (by intros []).
  cbn [fst snd]. split; [done |]. split; [done |]. split; [done |].
  split; [by intros [] |].
  destruct (restore_all restore_order p s).2; simpl; by rewrite ?Hst, ?Ha1.
Qed.
End Mounting.

Lemma removeEntry_then_loadEntries_witness :
  let p := Sample.device
             [("travelEntries", Codec.stringify (JArray [Sample.beach; Sample.harbour]))] in
  let r1 := HomeScreen.removeEntry "1" HomeScreen.Delete (Sample.home, p) in
  let r2 := HomeScreen.loadEntries (state r1, world r1) in
  HomeScreen.entries (state r1) = [Sample.harbour]
  ∧ HomeScreen.entries (state r2) = [Sample.harbour]
  ∧ console (world r2) = [].
Proof.
  intros p.
  destruct (removeEntry_then_loadEntries "1" Sample.home p)
    as (H1 & H2 & Hc & _).
  - reflexivity.
  - repeat apply List.Forall_cons; try apply List.Forall_nil;
      (split; [discriminate | reflexivity]).
  - vm_compute. reflexivity.
  - split; [exact H1 |]. split; [exact H2 | exact Hc].
Defined.

Lemma toggleAction_survives_restart_witness :
  let p := Sample.device [("likedPosts", Codec.stringify Sample.flags)] in
  let r1 := HomeScreen.toggleAction "2" HomeScreen.save (Sample.home, p) in
  let r2 := HomeScreen.loadActionStates (HomeScreen.mount, world r1) in
  HomeScreen.toggled (JObject []) "2" = inr (HomeScreen.savedPosts (state r1))
  ∧ HomeScreen.savedPosts (state r2) = HomeScreen.savedPosts (state r1).
Proof.
  intros p.
  destruct (toggleAction_survives_restart "2" HomeScreen.save Sample.home p)
    as (Ht & Hr).
  - reflexivity.
  - discriminate.
  - intros k' _. destruct k'; vm_compute; eexists; reflexivity.
  - vm_compute. reflexivity.
  - split; [exact Ht | exact Hr].
Defined.

Lemma toggleAction_null_overlay_witness :
  let p := Sample.device [("likedPosts", "null")] in
  let r1 := HomeScreen.loadActionStates (HomeScreen.mount, p) in
  let r2 := HomeScreen.toggleAction "1" HomeScreen.like (state r1, world r1) in
  HomeScreen.likedPosts (state r1) = JNull
  ∧ state r2 = state r1
  ∧ storage (world r2) = storage p
  ∧ console (world r2) = [("Error toggling action:", TypeError)].
Proof.
  intros p.
  destruct (toggleAction_null_overlay "1" HomeScreen.like HomeScreen.mount p "null")
    as (Hn & _ & Hs & Hst & Hc).
  - reflexivity.
  - reflexivity.
  - vm_compute. reflexivity.
  - intros k' Hk'. simpl in Hk'. lia.
  - split; [exact Hn |]. split; [exact Hs |]. split; [exact Hst | exact Hc].
Defined.

Lemma loadActionStates_read_rejected_witness :
  let p := with_faults [false; false; true]
             (Sample.device [("likedPosts", Codec.stringify Sample.flags)]) in
  let r := HomeScreen.loadActionStates (HomeScreen.mount, p) in
  state r = HomeScreen.mount
  ∧ console (world r) = [("Error loading action states:", Rejected)].
Proof.
  intros p.
  destruct (loadActionStates_read_rejected HomeScreen.mount p 2)
    as (_ & Hs & _ & _ & Hc); [lia | reflexivity |].
  split; [exact Hs | exact Hc].
Defined.

Lemma removeEntry_write_rejected_witness :
  let p := with_faults [true]
             (Sample.device
                [("travelEntries",
                  Codec.stringify (JArray [Sample.beach; Sample.harbour]))]) in
  let r := HomeScreen.removeEntry "1" HomeScreen.Delete (Sample.home, p) in
  state r = Sample.home
  ∧ storage (world r) = storage p
  ∧ alerts (world r) = [confirmation; removal_failure].
Proof.
  intros p.
  destruct (removeEntry_write_rejected "1" Sample.home p [])
    as (_ & Hs & Hst & Ha & _).
  - reflexivity.
  - intros Hin.
    repeat (apply elem_of_cons in Hin as [Hin | Hin]; [discriminate |]).
    by apply elem_of_nil in Hin.
  - split; [exact Hs |]. split; [exact Hst | exact Ha].
Defined.

Lemma toggleAction_write_rejected_witness :
  let p := with_faults [true] (Sample.device []) in
  let r := HomeScreen.toggleAction "1" HomeScreen.like (HomeScreen.mount, p) in
  HomeScreen.toggled (JObject []) "1" = inr (HomeScreen.likedPosts (state r))
  ∧ storage (world r) = storage p
  ∧ console (world r) = [("Error toggling action:", Rejected)].
Proof.
  intros p.
  destruct (toggleAction_write_rejected "1" HomeScreen.like HomeScreen.mount p [])
    as (_ & Ht & Hst & _ & Hc); [reflexivity | discriminate |].
  split; [exact Ht |]. split; [exact Hst | exact Hc].
Defined.

Lemma mountEffect_loads_both_witness :
  let p := Sample.device
             [("travelEntries", Codec.stringify (JArray [Sample.beach; Sample.untitled]));
              ("likedPosts", Codec.stringify Sample.flags)] in
  let r := HomeScreen.mountEffect (HomeScreen.mount, p) in
  HomeScreen.entries (state r)
  = HomeScreen.entries (state (HomeScreen.loadEntries (HomeScreen.mount, p)))
  ∧ HomeScreen.loading (state r) = false
  ∧ HomeScreen.likedPosts (state r)
    = HomeScreen.likedPosts (state (HomeScreen.loadActionStates (HomeScreen.mount, p))).
Proof.
  intros p.
  destruct (mountEffect_loads_both HomeScreen.mount p)
    as (_ & He & Hl & Hk & _); [reflexivity |].
  split; [exact He |]. split; [exact Hl | exact (Hk HomeScreen.like)].
Defined.

(** ** Capturing an entry *)

Lemma Array_join_nonempty sep part parts :
  part ≠ "" → Array_join sep (part :: parts) ≠ "".
Proof.
  intros Hne. destruct parts as [| part' parts]; simpl; [done |].
  destruct part; [done | discriminate].
Qed.

Lemma member_of_object coords k :
  coords ≠ JNull → member_of (Some coords) k = inr (own_property coords k).
Proof. intros Hn. by destruct coords. Qed.

Lemma try_catch_handler_irrelevant {St A} (body : Async St A) h1 h2 σ :
  (∃ x, (body σ).1 = inr x) → try_catch body h1 σ = try_catch body h2 σ.
Proof.
  intros [x Hx]. unfold try_catch.
  destruct (body σ) as [[e | y] σ']; [discriminate | done].
Qed.

Section Capturing.
Import AddEntryScreen.

(** X23. The formatted address is empty exactly when the geocoder gave no
    usable part: each of street, city, region and country is [null] or
    the empty string. *)
Theorem formatAddress_empty addr :
  formatAddress addr = ""
  ↔ falsy (street addr) = true ∧ falsy (city addr) = true
    ∧ falsy (region addr) = true ∧ falsy (country addr) = true.
Proof.
  unfold formatAddress, falsy. split.
  - intros Hj.
    destruct (truthy_text (street addr)) as [a |] eqn:Ha;
      destruct (truthy_text (city addr)) as [b |] eqn:Hb;
      destruct (truthy_text (region addr)) as [c |] eqn:Hc;
      destruct (truthy_text (country addr)) as [d |] eqn:Hd;
      try done; exfalso; simpl in Hj; rewrite ?Ha, ?Hb, ?Hc, ?Hd in Hj;
      simpl in Hj;
      repeat match goal with
             | Ht : truthy_text ?o = Some ?t |- _ =>
                 assert (t ≠ "")
                   by (destruct o as [t' |]; [| discriminate]; simpl in Ht;
                       destruct (String.eqb_spec t' ""); [discriminate |];
                       by injection Ht as <-);
                 clear Ht
             end;
      match type of Hj with
      | ?t +:+ _ = "" => destruct t; [done | discriminate]
      | ?t = "" => done
      end.
  - intros (Ha & Hb & Hc & Hd). simpl.
    destruct (truthy_text (street addr)); [discriminate |].
    destruct (truthy_text (city addr)); [discriminate |].
    destruct (truthy_text (region addr)); [discriminate |].
    by destruct (truthy_text (country addr)).
Qed.

Lemma getLocation_located position geocode coords s p :
  faults p = [] →
  member position "coords" = inr (Some coords) →
  coords ≠ JNull →
  getLocation position geocode (s, p)
  = (inr (),
     (setIsLoading false
        (match geocode (own_property coords "latitude")
                 (own_property coords "longitude") with
         | addr :: _ => setAddress (formatAddress addr)
         | [] => λ s', s'
         end (setLocation position (setIsLoading true s))),
      p)).
Proof.
  intros Hf Hm Hn. unfold getLocation. handler_unfold. async_unfold.
  cbn [fst snd]. rewrite Hf. cbn [fst snd]. rewrite Hm. cbn [fst snd].
  rewrite !member_of_object by done. cbn [fst snd]. rewrite Hf.
  by destruct (geocode _ _).
Qed.

(** With both location services accepting their calls and a position
    that carries coordinates, [getLocation] records the position, and
    replaces the address by the formatted first candidate of the
    geocoder; with no candidate the earlier address stays. It shows no
    dialog, logs nothing, and leaves the image and the loading flag
    off. *)
Theorem getLocation_records_position position geocode coords s p :
  faults p = [] →
  member position "coords" = inr (Some coords) →
  coords ≠ JNull →
  let r := getLocation position geocode (s, p) in
  location (state r) = position
  ∧ address (state r)
    = match geocode (own_property coords "latitude")
              (own_property coords "longitude") with
      | addr :: _ => formatAddress addr
      | [] => address s
      end
  ∧ image (state r) = image s
  ∧ isLoading (state r) = false
  ∧ world r = p.
Proof.
  intros Hf Hm Hn r. subst r. rewrite (getLocation_located _ _ coords) by done.
  unfold state, world. cbn [fst snd].
  by destruct (geocode _ _).
Qed.

(** X24. What a rejected location service leaves behind. When the position
    request is rejected the form is as it was. When the position is
    obtained and the geocoder is rejected, the new position is already
    recorded while the address is still the earlier one. Either way the
    failure dialog is shown once and the rejection is logged. *)
Theorem getLocation_rejected position geocode coords s p fs :
  let r := getLocation position geocode (s, p) in
  let reported p0 :=
    alerts (world r)
    = (alerts p0 ++ [("Error", "Failed to get location. Please try again.")])%list
    ∧ console (world r)
      = (console p0 ++ [("Error getting location:", Rejected)])%list in
  (faults p = true :: fs →
     form_fields (state r) = form_fields s ∧ reported p)
  ∧ (faults p = false :: true :: fs →
     member position "coords" = inr (Some coords) →
     coords ≠ JNull →
     location (state r) = position ∧ address (state r) = address s
     ∧ image (state r) = image s ∧ reported p).
Proof.
  intros r reported. subst r reported. split.
  - intros Hf. unfold getLocation. handler_unfold. async_unfold. simpl.
    by rewrite Hf.
  - intros Hf Hm Hn. unfold getLocation. handler_unfold. async_unfold.
    cbn [fst snd]. rewrite Hf. cbn [fst snd]. rewrite Hm. cbn [fst snd].
    by rewrite !member_of_object by done.
Qed.

Lemma pickImage_picked uri position geocode s p :
  faults p = [] →
  pickImage (Some uri) position geocode (s, p)
  = (inr (),
     (setIsLoading false
        (state (getLocation position geocode
                  (setImage (Some uri) (setIsLoading true s), p))),
      world (getLocation position geocode
               (setImage (Some uri) (setIsLoading true s), p)))).
Proof.
  intros Hf. unfold pickImage. handler_unfold.
  unfold try_finally at 1. unfold try_catch at 1.
  unfold mbind at 1 2 3 4. unfold Async_bind at 1 2 3 4.
  unfold setState at 1 2, platform_call at 1, mret, Async_ret. cbn [fst snd].
  rewrite Hf. cbn [fst snd].
  pose proof (settled (getLocation position geocode)
                (setImage (Some uri) (setIsLoading true s), p)) as Ho.
  unfold outcome, state, world in *.
  destruct (getLocation position geocode _) as [o [s1 p1]]. cbn [fst snd] in *.
  rewrite Ho; [done |].
  unfold getLocation. handler_unfold. settles_walk.
Qed.

(** X25. A location failure does not lose the picked image. When the picker
    returns an image and the position request is then rejected,
    [pickImage] keeps the image, leaves location and address as they
    were, and the failure is reported once, as a location failure: the
    catch block of [pickImage] itself is not entered. *)
Theorem pickImage_location_rejected uri position geocode s p fs :
  faults p = false :: true :: fs →
  let r := pickImage (Some uri) position geocode (s, p) in
  image (state r) = Some uri
  ∧ location (state r) = location s
  ∧ address (state r) = address s
  ∧ isLoading (state r) = false
  ∧ alerts (world r)
    = (alerts p ++ [("Error", "Failed to get location. Please try again.")])%list
  ∧ console (world r) = (console p ++ [("Error getting location:", Rejected)])%list.
Proof.
  intros Hf r. subst r. unfold pickImage, getLocation.
  handler_unfold. async_unfold. simpl. by rewrite Hf.
Qed.

(** X26. When no image is obtained, because the user cancelled or because
    the picker call was rejected, [pickImage] and [takePicture] leave the
    form as it was and make no location request; a cancellation shows
    no dialog. *)
Theorem pickers_without_image picked position geocode s p :
  picked = None ∨ hd false (faults p) = true →
  let r1 := pickImage picked position geocode (s, p) in
  let r2 := takePicture picked position geocode (s, p) in
  form_fields (state r1) = form_fields s
  ∧ form_fields (state r2) = form_fields s
  ∧ faults (world r1) = tl (faults p)
  ∧ faults (world r2) = tl (faults p)
  ∧ (hd false (faults p) = false →
       alerts (world r1) = alerts p ∧ alerts (world r2) = alerts p).
Proof.
  intros Hno r1 r2. subst r1 r2. unfold pickImage, takePicture.
  handler_unfold. async_unfold. simpl.
  destruct (faults p) as [| [] fs] eqn:Hf; simpl in *.
  - destruct Hno as [-> | ?]; [done | discriminate].
  - repeat split; done.
  - destruct Hno as [-> | ?]; [done | discriminate].
Qed.

(** The camera and the gallery behave alike: when the picker call is
    accepted, [takePicture] and [pickImage] with the same answers end in
    the same state and the same world. *)
Theorem takePicture_as_pickImage picked position geocode s p :
  hd false (faults p) = false →
  takePicture picked position geocode (s, p)
  = pickImage picked position geocode (s, p).
Proof.
  intros Hf. unfold pickImage, takePicture.
  unfold ImagePicker_launchCameraAsync, ImagePicker_launchImageLibraryAsync.
  match goal with
  | |- try_finally (try_catch ?body ?h1) ?final _
       = try_finally (try_catch ?body ?h2) ?final _ =>
      unfold try_finally;
      rewrite (try_catch_handler_irrelevant body h1 h2); [reflexivity |]
  end.
  unfold platform_answer. async_unfold. cbn [fst snd].
  destruct (faults p) as [| [] fs]; [| discriminate |]; cbn [fst snd];
    (destruct picked as [uri |]; [| by eexists]; exists ();
     apply (settled (getLocation position geocode));
     unfold getLocation; handler_unfold; settles_walk).
Qed.

(** The permission check of the form. With every call accepted, the
    dialog is shown exactly when one of the three answers is not
    granted, and the screen is left (by its OK button) only then. *)
Theorem requestPermissions_dialog camera loc notification pressed s p :
  faults p = [] →
  let r := requestPermissions camera loc notification pressed (s, p) in
  let granted := camera = "granted" ∧ loc = "granted" ∧ notification = "granted" in
  state r = s
  ∧ console (world r) = console p
  ∧ (granted → alerts (world r) = alerts p ∧ navigation (world r) = navigation p)
  ∧ (¬ granted →
       alerts (world r)
       = (alerts p
            ++ [("Permissions Required",
                 "Camera, location, and notification permissions are required for this feature.")])%list
       ∧ navigation (world r)
         = (navigation p ++ (if pressed then ["goBack"] else []))%list).
Proof.
  intros Hf r granted. subst r granted. unfold requestPermissions, not_granted.
  handler_unfold. async_unfold. simpl. rewrite Hf. simpl.
  rewrite Hf. simpl. rewrite Hf. simpl.
  destruct (String.eqb_spec camera "granted") as [-> | Hc];
    destruct (String.eqb_spec loc "granted") as [-> | Hl];
    destruct (String.eqb_spec notification "granted") as [-> | Hn];
    simpl; (split; [by destruct pressed |]); (split; [by destruct pressed |]);
    (split; [intros (? & ? & ?); congruence || done
            | intros Hng; try (by destruct Hng);
              destruct pressed; simpl; by rewrite ?app_nil_r]).
Qed.
End Capturing.

(** ** Saving: rejected calls, and the whole capture *)

Section SavingEdges.
Context `{JSON}.
Import AddEntryScreen.

(** X27. Losing focus clears the form, and a cleared form cannot be saved:
    [saveEntry] stops at the validation dialog, calls no service and
    leaves the store alone. A screen that stays focused keeps its form. *)
Theorem focusEffect_clears_form now date s p :
  focusEffect true s = s
  ∧ form_fields (focusEffect false s) = form_fields mount
  ∧ let r := saveEntry now date (focusEffect false s, p) in
    state r = focusEffect false s
    ∧ storage (world r) = storage p
    ∧ faults (world r) = faults p
    ∧ alerts (world r)
      = (alerts p ++ [("Missing Information",
                       "Please fill in all fields and take a picture")])%list.
Proof.
  split; [reflexivity |]. split; [reflexivity |].
  assert (Hr : rejected_form (focusEffect false s) = true) by reflexivity.
  cbn zeta. by rewrite (saveEntry_rejected now date _ p Hr).
Qed.

(** X28. When the store rejects the write of [saveEntry], nothing is
    persisted, no notification is scheduled and the screen is not left;
    the form keeps its fields, so the user can try again, and the
    failure is reported and logged. *)
Theorem saveEntry_write_rejected now date s p v existing fs :
  faults p = false :: true :: fs →
  rejected_form s = false →
  stored_collection p = Some v →
  spread_array v = inr existing →
  let r := saveEntry now date (s, p) in
  outcome r = inr ()
  ∧ storage (world r) = storage p
  ∧ form_fields (state r) = form_fields s
  ∧ notifications (world r) = notifications p
  ∧ navigation (world r) = navigation p
  ∧ alerts (world r)
    = (alerts p ++ [("Error", "Failed to save entry. Please try again.")])%list
  ∧ console (world r) = (console p ++ [("Error saving entry:", Rejected)])%list.
Proof.
  intros Hf Hr Hc Hv r. subst r. unfold rejected_form, stored_collection in *.
  unfold saveEntry. async_unfold. simpl. rewrite Hr. simpl. rewrite Hf. simpl.
  destruct (truthy_text (storage p !! "travelEntries")) as [text |].
  - rewrite Hc. simpl. by rewrite Hv.
  - injection Hc as <-. simpl in *. by injection Hv as <-.
Qed.

(** X29. When the notification cannot be scheduled, the entry is in the
    store already: the user is shown the failure dialog and stays on
    the form although the write went through. A second attempt that
    succeeds then stores the entry a second time, under a new id. *)
Theorem saveEntry_notification_rejected now date s p items fs :
  faults p = false :: false :: true :: fs →
  rejected_form s = false →
  stored_collection p = Some (JArray items) →
  let e := newEntry now date s in
  let r := saveEntry now date (s, p) in
  storage (world r) !! "travelEntries"
  = Some (JSON_stringify (JArray (items ++ [e])))
  ∧ alerts (world r)
    = (alerts p ++ [("Error", "Failed to save entry. Please try again.")])%list
  ∧ notifications (world r) = notifications p
  ∧ navigation (world r) = navigation p
  ∧ form_fields (state r) = form_fields s
  ∧ (fs = [] →
     JSON_parse (JSON_stringify (JArray (items ++ [e]))) = Some (JArray (items ++ [e])) →
     ∀ now' date',
       storage (world (saveEntry now' date' (state r, world r))) !! "travelEntries"
       = Some (JSON_stringify (JArray (items ++ [e; newEntry now' date' s])))).
Proof.
  intros Hf Hr Hc e r.
  assert (E : r = (inr (),
              (setIsLoading false (setIsLoading true s),
               with_console (console p ++ [("Error saving entry:", Rejected)])
                 (with_alerts
                    (alerts p ++ [("Error", "Failed to save entry. Please try again.")])
                    (with_faults fs
                       (with_storage
                          (<["travelEntries" := JSON_stringify (JArray (items ++ [e]))]>
                             (storage p))
                          p)))))).
  { subst r e. revert Hr Hc. unfold rejected_form, stored_collection. intros Hr Hc.
    unfold saveEntry. async_unfold. simpl. rewrite Hr. simpl. rewrite Hf. simpl.
    destruct (truthy_text (storage p !! "travelEntries")) as [text |].
    - by rewrite Hc.
    - by injection Hc as <-. }
  rewrite E. unfold state, world. cbn [fst snd].
  split; [simpl; apply lookup_insert_eq |]. do 4 (split; [done |]).
  intros -> Hrt now' date'.
  erewrite (saveEntry_saved now' date' _ _ (JArray (items ++ [e])) (items ++ [e])).
  - simpl. rewrite lookup_insert_eq, <- app_assoc. reflexivity.
  - exact Hr.
  - reflexivity.
  - unfold stored_collection. simpl. rewrite lookup_insert_eq.
    by rewrite (truthy_text_parsed _ _ Hrt).
  - reflexivity.
Qed.

(** X30. The whole capture. On a freshly mounted form, picking an image with
    the location services answering, typing a title and a description,
    saving and then loading the home screen shows the stored records
    that pass the filter followed by the new entry: its id from the
    clock, the trimmed title and description, the picked image, the
    position and the formatted address of the first geocoder candidate
    (empty when there is none). *)
Theorem capture_save_load uri position geocode coords t d now date home p items :
  faults p = [] →
  uri ≠ "" → trim t ≠ "" → trim d ≠ "" →
  member position "coords" = inr (Some coords) →
  coords ≠ JNull →
  stored_collection p = Some (JArray items) →
  JNull ∉ items →
  let formatted :=
    match geocode (own_property coords "latitude")
            (own_property coords "longitude") with
    | addr :: _ => formatAddress addr
    | [] => ""
    end in
  let e := JObject [("id", JString (pretty now));
                    ("title", JString (trim t));
                    ("description", JString (trim d));
                    ("image", JString uri);
                    ("location", position);
                    ("address", JString formatted);
                    ("date", JString date)] in
  JSON_parse (JSON_stringify (JArray (items ++ [e]))) = Some (JArray (items ++ [e])) →
  let r1 := pickImage (Some uri) position geocode (mount, p) in
  let s2 := setDescription d (setTitle t (state r1)) in
  let r3 := saveEntry now date (s2, world r1) in
  let r4 := HomeScreen.loadEntries (home, world r3) in
  HomeScreen.entries (state r4) = (List.filter required_fields items ++ [e])%list
  ∧ navigation (world r3) = (navigation p ++ ["Home"])%list
  ∧ alerts (world r4) = alerts p
  ∧ console (world r4) = console p.
Proof.
  intros Hf Huri Ht Hd Hm Hn Hc Hnull formatted e Hrt r1 s2 r3 r4.
  assert (E1 : r1 = (inr (),
                (setIsLoading false
                   (setIsLoading false
                      (match geocode (own_property coords "latitude")
                               (own_property coords "longitude") with
                       | addr :: _ => setAddress (formatAddress addr)
                       | [] => λ s', s'
                       end (setLocation position
                              (setIsLoading true
                                 (setImage (Some uri) (setIsLoading true mount)))))),
                 p))).
  { subst r1. rewrite pickImage_picked by done.
    by rewrite (getLocation_located _ _ coords) by done. }
  assert (He : newEntry now date s2 = e).
  { subst s2 e formatted. rewrite E1. unfold state. cbn [fst snd].
    by destruct (geocode _ _). }
  assert (Hacc : rejected_form s2 = false).
  { apply accepted_form.
    - subst s2. rewrite E1. unfold state. cbn [fst snd].
      destruct (geocode _ _); by apply falsy_Some.
    - subst s2. by destruct (state r1).
    - subst s2. by destruct (state r1). }
  assert (Hw1 : world r1 = p) by by rewrite E1.
  assert (E3 : r3 = _)
    by (subst r3; rewrite Hw1;
        exact (saveEntry_saved now date s2 p _ items Hacc Hf Hc eq_refl)).
  rewrite He in E3.
  assert (Hw3 : faults (world r3) = []
                ∧ storage (world r3) !! "travelEntries"
                  = Some (JSON_stringify (JArray (items ++ [e])))
                ∧ navigation (world r3) = (navigation p ++ ["Home"])%list
                ∧ alerts (world r3) = alerts p
                ∧ console (world r3) = console p).
  { rewrite E3. unfold world. cbn [snd]. simpl. by rewrite lookup_insert_eq. }
  destruct Hw3 as (Hf3 & Hs3 & Hnav & Ha3 & Hc3).
  assert (Hreq : required_fields e = true)
    by (rewrite <- He; by apply newEntry_required).
  subst r4.
  rewrite (loadEntries_appended home (world r3) _ items e Hf3 Hs3 Hrt Hnull Hreq).
  split; [done |]. split; [exact Hnav |]. split; [exact Ha3 | exact Hc3].
Qed.
End SavingEdges.

Lemma getLocation_records_position_witness :
  let r := AddEntryScreen.getLocation Sample.position Sample.geocoder
             (Sample.form, Sample.device []) in
  AddEntryScreen.location (state r) = Sample.position
  ∧ AddEntryScreen.address (state r) = "Cebu City, Philippines"
  ∧ world r = Sample.device [].
Proof.
  destruct (getLocation_records_position Sample.position Sample.geocoder
              Sample.coords Sample.form (Sample.device []))
    as (Hl & Ha & _ & _ & Hw); [reflexivity | reflexivity | discriminate |].
  split; [exact Hl |]. split; [exact Ha | exact Hw].
Defined.

(** The geocoder rejects: the new position next to the earlier address. *)
Lemma getLocation_rejected_witness :
  let p := with_faults [false; true] (Sample.device []) in
  let r := AddEntryScreen.getLocation Sample.position Sample.geocoder
             (Sample.form, p) in
  AddEntryScreen.location (state r) = Sample.position
  ∧ AddEntryScreen.address (state r) = "Cebu"
  ∧ console (world r) = [("Error getting location:", Rejected)].
Proof.
  intros p.
  pose proof (getLocation_rejected Sample.position Sample.geocoder Sample.coords
                Sample.form p []) as Hw.
  cbn zeta in Hw. destruct Hw as [_ Hgeo].
  destruct Hgeo as (Hl & Ha & _ & _ & Hc); [reflexivity | reflexivity | discriminate |].
  split; [exact Hl |]. split; [exact Ha | exact Hc].
Defined.

Lemma pickImage_location_rejected_witness :
  let p := with_faults [false; true] (Sample.device []) in
  let r := AddEntryScreen.pickImage (Some "file://d.jpg") Sample.position
             Sample.geocoder (AddEntryScreen.mount, p) in
  AddEntryScreen.image (state r) = Some "file://d.jpg"
  ∧ AddEntryScreen.location (state r) = JNull
  ∧ alerts (world r) = [("Error", "Failed to get location. Please try again.")].
Proof.
  intros p.
  destruct (pickImage_location_rejected "file://d.jpg" Sample.position
              Sample.geocoder AddEntryScreen.mount p [])
    as (Hi & Hl & _ & _ & Ha & _); [reflexivity |].
  split; [exact Hi |]. split; [exact Hl | exact Ha].
Defined.

Lemma pickers_without_image_witness :
  let r := AddEntryScreen.takePicture None Sample.position Sample.geocoder
             (Sample.form, with_faults [false; true] (Sample.device [])) in
  form_fields (state r) = form_fields Sample.form
  ∧ faults (world r) = [true]
  ∧ alerts (world r) = [].
Proof.
  destruct (pickers_without_image None Sample.position Sample.geocoder Sample.form
              (with_faults [false; true] (Sample.device [])))
    as (_ & Hf & _ & Hc & Ha); [by left |].
  split; [exact Hf |]. split; [exact Hc |]. by destruct Ha.
Defined.

Lemma takePicture_as_pickImage_witness :
  AddEntryScreen.takePicture (Some "file://d.jpg") Sample.position Sample.geocoder
    (AddEntryScreen.mount, Sample.device [])
  = AddEntryScreen.pickImage (Some "file://d.jpg") Sample.position Sample.geocoder
      (AddEntryScreen.mount, Sample.device []).
Proof.
  apply (takePicture_as_pickImage (Some "file://d.jpg") Sample.position
           Sample.geocoder AddEntryScreen.mount (Sample.device [])).
  reflexivity.
Defined.

Lemma requestPermissions_dialog_witness :
  let r := AddEntryScreen.requestPermissions "granted" "denied" "granted" true
             (AddEntryScreen.mount, Sample.device []) in
  alerts (world r)
  = [("Permissions Required",
      "Camera, location, and notification permissions are required for this feature.")]
  ∧ navigation (world r) = ["goBack"].
Proof.
  destruct (requestPermissions_dialog "granted" "denied" "granted" true
              AddEntryScreen.mount (Sample.device []))
    as (_ & _ & _ & Hdenied); [reflexivity |].
  apply Hdenied. intros (_ & Hl & _). discriminate.
Defined.

Lemma saveEntry_write_rejected_witness :
  let p := with_faults [false; true]
             (Sample.device
                [("travelEntries", Codec.stringify (JArray [Sample.beach]))]) in
  let r := AddEntryScreen.saveEntry Sample.now Sample.date (Sample.form, p) in
  storage (world r) = storage p
  ∧ form_fields (state r) = form_fields Sample.form
  ∧ navigation (world r) = []
  ∧ console (world r) = [("Error saving entry:", Rejected)].
Proof.
  intros p.
  destruct (saveEntry_write_rejected Sample.now Sample.date Sample.form p
              (JArray [Sample.beach]) [Sample.beach] [])
    as (_ & Hst & Hform & _ & Hnav & _ & Hc);
    [reflexivity | reflexivity | vm_compute; reflexivity | reflexivity |].
  split; [exact Hst |]. split; [exact Hform |]. split; [exact Hnav | exact Hc].
Defined.

Lemma saveEntry_notification_rejected_witness :
  let p := with_faults [false; false; true] (Sample.device []) in
  let e := AddEntryScreen.newEntry Sample.now Sample.date Sample.form in
  let r := AddEntryScreen.saveEntry Sample.now Sample.date (Sample.form, p) in
  storage (world r) !! "travelEntries" = Some (Codec.stringify (JArray [e]))
  ∧ navigation (world r) = []
  ∧ storage (world (AddEntryScreen.saveEntry (Sample.now + 1) Sample.date
                      (state r, world r))) !! "travelEntries"
    = Some (Codec.stringify
              (JArray [e; AddEntryScreen.newEntry (Sample.now + 1) Sample.date
                            Sample.form])).
Proof.
  intros p e.
  destruct (saveEntry_notification_rejected Sample.now Sample.date Sample.form p [] [])
    as (Hst & _ & _ & Hnav & _ & Hretry); [reflexivity | reflexivity | reflexivity |].
  split; [exact Hst |]. split; [exact Hnav |].
  apply (Hretry eq_refl); vm_compute; reflexivity.
Defined.

Lemma capture_save_load_witness :
  let r1 := AddEntryScreen.pickImage (Some "file://d.jpg") Sample.position
              Sample.geocoder
              (AddEntryScreen.mount,
               Sample.device
                 [("travelEntries", Codec.stringify (JArray [Sample.beach]))]) in
  let s2 := AddEntryScreen.setDescription "Clear water"
              (AddEntryScreen.setTitle " Reef " (state r1)) in
  let r3 := AddEntryScreen.saveEntry Sample.now Sample.date (s2, world r1) in
  let r4 := HomeScreen.loadEntries (HomeScreen.mount, world r3) in
  HomeScreen.entries (state r4)
  = [Sample.beach;
     JObject [("id", JString "1700000000000"); ("title", JString "Reef");
              ("description", JString "Clear water");
              ("image", JString "file://d.jpg");
              ("location", Sample.position);
              ("address", JString "Cebu City, Philippines");
              ("date", JString Sample.date)]]
  ∧ navigation (world r3) = ["Home"].
Proof.
  destruct (capture_save_load "file://d.jpg" Sample.position Sample.geocoder
              Sample.coords " Reef " "Clear water" Sample.now Sample.date
              HomeScreen.mount
              (Sample.device
                 [("travelEntries", Codec.stringify (JArray [Sample.beach]))])
              [Sample.beach])
    as (He & Hnav & _).
  - reflexivity.
  - discriminate.
  - vm_compute. discriminate.
  - vm_compute. discriminate.
  - reflexivity.
  - discriminate.
  - vm_compute. reflexivity.
  - intros Hin. apply elem_of_cons in Hin as [Hin | Hin]; [discriminate |].
    by apply elem_of_nil in Hin.
  - vm_compute. reflexivity.
  - split; [exact He | exact Hnav].
Defined.

(** A valid form on a store that rejects the read: the failure is
    caught and the loading flag is off again. *)
Lemma capture_handlers_settle_witness :
  let r := AddEntryScreen.saveEntry Sample.now Sample.date
             (Sample.form, with_faults [true] (Sample.device [])) in
  outcome r = inr () ∧ AddEntryScreen.isLoading (state r) = false.
Proof.
  destruct (capture_handlers_settle None Sample.position Sample.geocoder
              Sample.now Sample.date Sample.form
              (with_faults [true] (Sample.device [])))
    as (_ & _ & _ & _ & Hsave & _).
  apply Hsave. reflexivity.
Defined.

(** A candidate with a city and a country has an address; one with an
    empty region only has none. *)
Lemma formatAddress_empty_witness :
  AddEntryScreen.formatAddress Sample.cebu ≠ ""
  ∧ AddEntryScreen.formatAddress
      (AddEntryScreen.mkAddress None None (Some "") None) = "".
Proof.
  split.
  - intros Hempty.
    apply (formatAddress_empty Sample.cebu) in Hempty as (_ & Hcity & _).
    discriminate.
  - apply (formatAddress_empty (AddEntryScreen.mkAddress None None (Some "") None)).
    repeat split.
Defined.
